(** * CLIP text encoder: a shallow embedding of
      [src/refiners/foundationals/clip/text_encoder.py]

    The Python file declares the encoder as a tree of [fl] modules
    (chains, residuals, sums, leaves) and gets its behaviour from running
    that tree.  The embedding keeps both levels: a [Module] tree built by
    the same constructors as the source, and a [forward] interpreter that
    runs it on values.

    Floating point is not modelled.  Scalars are the carrier of a
    [Runtime] (the numeric tensor runtime the source delegates to), and
    every statement below holds for every runtime.  Device and dtype
    arguments only select placement and are left out. *)

From Stdlib Require Import String Ascii ZArith QArith List Arith Lia Bool.
Import ListNotations.
Local Open Scope nat_scope.
Set Warnings "-register-all,-abstract-large-number".

(** ** Errors and fallible computations *)

Inductive Error : Type :=
| IndexError
| ShapeError
| TypeError
| AssertionError
| ZeroDivisionError.

Inductive Result (A : Type) : Type :=
| Ok (a : A)
| Err (e : Error).

Arguments Ok {A} a.
Arguments Err {A} e.

Definition bind {A B : Type} (r : Result A) (k : A -> Result B) : Result B :=
  match r with
  | Ok a => k a
  | Err e => Err e
  end.

Notation "x <- r ;; k" := (bind r (fun x => k))
  (at level 61, r at next level, right associativity).

Definition is_ok {A : Type} (r : Result A) : bool :=
  match r with
  | Ok _ => true
  | Err _ => false
  end.

(** All-or-nothing traversal: the first failure aborts, as an exception
    raised inside a Python generator expression does. *)
Fixpoint map_result {A B : Type} (f : A -> Result B) (l : list A) : Result (list B) :=
  match l with
  | [] => Ok []
  | a :: l' => b <- f a ;; bs <- map_result f l' ;; Ok (b :: bs)
  end.

(** ** The numeric runtime *)

(** The scalar operations the tensor runtime supplies.  [s_rsqrt x] stands
    for [1 / sqrt x], [s_of_Q] for the rounding of a decimal literal. *)
Class Runtime : Type := {
  scalar : Type;
  s_zero : scalar;
  s_add : scalar -> scalar -> scalar;
  s_sub : scalar -> scalar -> scalar;
  s_mul : scalar -> scalar -> scalar;
  s_div : scalar -> scalar -> scalar;
  s_of_nat : nat -> scalar;
  s_of_Q : Q -> scalar;
  s_exp : scalar -> scalar;
  s_rsqrt : scalar -> scalar;
  s_gelu : scalar -> scalar;
  s_approx_gelu : scalar -> scalar
}.

(** A small runtime for running the model on examples: integers modulo
    1009, with polynomial stand-ins for the division and for the
    transcendental operations. *)
Definition wrap (x : Z) : Z := (x mod 1009)%Z.

Definition ZRuntime : Runtime := {|
  scalar := Z;
  s_zero := 0%Z;
  s_add := fun a b => wrap (a + b)%Z;
  s_sub := fun a b => wrap (a - b)%Z;
  s_mul := fun a b => wrap (a * b)%Z;
  s_div := fun a b => wrap (a * (b + 1))%Z;
  s_of_nat := fun n => wrap (Z.of_nat n);
  s_of_Q := fun q => wrap (Qnum q + Zpos (Qden q))%Z;
  s_exp := fun x => wrap (1 + x + x * x)%Z;
  s_rsqrt := fun x => wrap (x + 2)%Z;
  s_gelu := fun x => wrap (x * x * x)%Z;
  s_approx_gelu := fun x => wrap (x * x)%Z
|}.

(** ** The tokenizer collaborator *)

(** What [refiners.foundationals.clip.tokenizer] fixes and
    [text_encoder.py] does not show, left as parameters: the defaults of
    [CLIPTokenizer.__init__] and the byte-pair encoding of a text (start
    and end markers included). *)
Class TokenizerBackend : Type := {
  default_sequence_length : nat;
  default_pad_token_id : nat;
  bpe : string -> list nat
}.

(** A small backend for running examples: one id per character, between
    a start marker 256 and an end marker 257 that also pads. *)
Definition ToyBackend : TokenizerBackend := {|
  default_sequence_length := 4;
  default_pad_token_id := 257;
  bpe := fun s => 256 :: map nat_of_ascii (list_ascii_of_string s) ++ [257]
|}.

Record CLIPTokenizer : Type := {
  sequence_length : nat;
  pad_token_id : nat
}.

(** Modelled from the spec: the constructor of [CLIPTokenizer], which lives
    in the tokenizer module.  A keyword argument that is not passed takes
    the tokenizer's own default. *)
Definition new_CLIPTokenizer {TB : TokenizerBackend}
  (sequence_length_arg pad_token_id_arg : option nat) : CLIPTokenizer := {|
  sequence_length :=
    match sequence_length_arg with Some n => n | None => default_sequence_length end;
  pad_token_id :=
    match pad_token_id_arg with Some p => p | None => default_pad_token_id end
|}.

(** Modelled from the spec: [CLIPTokenizer.encode], "padded/truncated to a
    configured sequence length, using a configured pad-token ID". *)
Definition encode {TB : TokenizerBackend} (t : CLIPTokenizer) (text : string) : list nat :=
  firstn (sequence_length t) (bpe text ++ repeat (pad_token_id t) (sequence_length t)).

(** ** Tensors and values *)

Record IntTensor : Type := {
  ishape : nat * nat;
  idata : list (list nat)
}.

Section Model.

Context {RT : Runtime} {TB : TokenizerBackend}.

(** A hidden-state tensor: its shape (batch, sequence_length,
    embedding_dim) and its entries, batch-major. *)
Record Tensor : Type := {
  shape : nat * nat * nat;
  data : list (list (list scalar))
}.

(** What flows along the top-level chain: the raw texts, then the token
    ids, then hidden states.  A single [str] is a batch of one. *)
Inductive Value : Type :=
| Text (batch : list string)
| Tokens (t : IntTensor)
| Hidden (t : Tensor).

(** Data agrees with the recorded shape. *)
Definition well_shaped (t : Tensor) : Prop :=
  let '(b, l, d) := shape t in
  length (data t) = b /\
  Forall (fun row => length row = l /\ Forall (fun v => length v = d) row) (data t).

Definition has_shape (t : Tensor) (s : nat * nat * nat) : Prop :=
  shape t = s /\ well_shaped t.

(** ** Kernels on vectors and sequences *)

Fixpoint zip_with {A B C : Type} (f : A -> B -> C) (l1 : list A) (l2 : list B) : list C :=
  match l1, l2 with
  | a :: l1', b :: l2' => f a b :: zip_with f l1' l2'
  | _, _ => []
  end.

Definition vsum (v : list scalar) : scalar := fold_right s_add s_zero v.

Definition dot (u v : list scalar) : scalar := vsum (zip_with s_mul u v).

Definition vadd (u v : list scalar) : list scalar := zip_with s_add u v.

(** Parameters are kept as indexing functions; the owning module records
    their sizes. *)
Record LinearParams : Type := {
  lweight : nat -> nat -> scalar;
  lbias : nat -> scalar
}.

Record NormParams : Type := {
  nweight : nat -> scalar;
  nbias : nat -> scalar
}.

(** [y = W x + b] with [W] of size [out_features * in_features]. *)
Definition linear_vec (in_features out_features : nat) (p : LinearParams)
  (v : list scalar) : list scalar :=
  map (fun o => s_add (dot (map (lweight p o) (seq 0 in_features)) v) (lbias p o))
      (seq 0 out_features).

(** Normalisation over the last dimension; the epsilon is added to the
    variance before the square root. *)
Definition layer_norm_vec (eps : Q) (p : NormParams) (v : list scalar) : list scalar :=
  let n := s_of_nat (length v) in
  let mean := s_div (vsum v) n in
  let var := s_div (vsum (map (fun a => s_mul (s_sub a mean) (s_sub a mean)) v)) n in
  let rstd := s_rsqrt (s_add var (s_of_Q eps)) in
  map (fun ja => s_add (s_mul (s_mul (s_sub (snd ja) mean) rstd) (nweight p (fst ja)))
                       (nbias p (fst ja)))
      (combine (seq 0 (length v)) v).

Definition softmax (scores : list scalar) : list scalar :=
  let e := map s_exp scores in
  let z := vsum e in
  map (fun a => s_div a z) e.

Definition weighted_sum (d : nat) (w : list scalar) (vs : list (list scalar)) : list scalar :=
  fold_right vadd (repeat s_zero d) (zip_with (fun a v => map (s_mul a) v) w vs).

(** One query against the keys and values it may see. *)
Definition attend (d : nat) (q : list scalar) (ks vs : list (list scalar)) : list scalar :=
  weighted_sum d
    (softmax (map (fun k => s_mul (dot q k) (s_rsqrt (s_of_nat d))) ks)) vs.

(** Slice number [h] of width [d] of a vector. *)
Definition head (d h : nat) (v : list scalar) : list scalar :=
  firstn d (skipn (h * d) v).

(** The positions query [i] may attend to: itself and earlier ones under
    the causal mask, all of them otherwise. *)
Definition visible {A : Type} (is_causal : bool) (i : nat) (l : list A) : list A :=
  if is_causal then firstn (S i) l else l.

Definition sdpa_at (num_heads d : nat) (is_causal : bool)
  (qs ks vs : list (list scalar)) (i : nat) : list scalar :=
  concat (map (fun h =>
                 attend d (head d h (nth i qs []))
                   (map (head d h) (visible is_causal i ks))
                   (map (head d h) (visible is_causal i vs)))
              (seq 0 num_heads)).

Definition scaled_dot_product_attention (num_heads d : nat) (is_causal : bool)
  (qs ks vs : list (list scalar)) : list (list scalar) :=
  map (sdpa_at num_heads d is_causal qs ks vs) (seq 0 (length qs)).

(** Modelled from the spec: the forward pass of [fl.SelfAttention] on one
    sequence.  Queries, keys and values are linear projections of the
    input, split into [num_heads] heads of equal width; "position i only
    attends to positions <= i" when causal; an output projection
    follows. *)
Definition self_attention_seq (embedding_dim num_heads : nat) (is_causal : bool)
  (q k v o : LinearParams) (xs : list (list scalar)) : list (list scalar) :=
  let proj p := map (linear_vec embedding_dim embedding_dim p) xs in
  map (linear_vec embedding_dim embedding_dim o)
      (scaled_dot_product_attention num_heads (embedding_dim / num_heads) is_causal
         (proj q) (proj k) (proj v)).

(** ** Shape rules of the runtime *)

Definition broadcast_dim (a b : nat) : Result nat :=
  if a =? b then Ok a
  else if a =? 1 then Ok b
  else if b =? 1 then Ok a
  else Err ShapeError.

Definition bzip {A : Type} (f : A -> A -> A) (n1 n2 : nat) (l1 l2 : list A) : list A :=
  if n1 =? n2 then zip_with f l1 l2
  else if n1 =? 1 then match l1 with x :: _ => map (f x) l2 | [] => [] end
  else match l2 with y :: _ => map (fun x => f x y) l1 | [] => [] end.

(** Elementwise addition with the runtime's broadcasting: along each
    dimension the sizes are equal or one of them is 1, anything else is a
    shape error. *)
Definition tensor_add (a b : Tensor) : Result Tensor :=
  let '(b1, l1, d1) := shape a in
  let '(b2, l2, d2) := shape b in
  nb <- broadcast_dim b1 b2 ;;
  nl <- broadcast_dim l1 l2 ;;
  nd <- broadcast_dim d1 d2 ;;
  Ok {| shape := (nb, nl, nd);
        data := bzip (bzip (bzip s_add d1 d2) l1 l2) b1 b2 (data a) (data b) |}.

Definition value_add (x y : Value) : Result Value :=
  match x, y with
  | Hidden a, Hidden b => t <- tensor_add a b ;; Ok (Hidden t)
  | _, _ => Err TypeError
  end.

(** Apply a per-position function whose input width must be [d_in]. *)
Definition map_positions (d_in d_out : nat) (f : list scalar -> list scalar)
  (x : Value) : Result Value :=
  match x with
  | Hidden t =>
      let '(b, l, d) := shape t in
      if d =? d_in
      then Ok (Hidden {| shape := (b, l, d_out); data := map (map f) (data t) |})
      else Err ShapeError
  | _ => Err TypeError
  end.

(** Apply a function of the whole sequence to every batch entry; it keeps
    lengths and widths. *)
Definition map_positions_seq (x : Value) (d_in : nat)
  (f : list (list scalar) -> list (list scalar)) : Result Value :=
  match x with
  | Hidden t =>
      let '(b, l, d) := shape t in
      if d =? d_in
      then Ok (Hidden {| shape := (b, l, d); data := map f (data t) |})
      else Err ShapeError
  | _ => Err TypeError
  end.

(** Apply an activation entry by entry. *)
Definition map_entries (f : scalar -> scalar) (x : Value) : Result Value :=
  match x with
  | Hidden t => Ok (Hidden {| shape := shape t; data := map (map (map f)) (data t) |})
  | _ => Err TypeError
  end.

(** ** The module tree *)

(** The [fl] layers the source composes.  A [Chain] subclass of the source
    (PositionalEncoder, FeedForward, TransformerLayer, CLIPTextEncoder) is
    the chain its constructor passes to [super().__init__]. *)
Inductive Module : Type :=
| Chain (modules : list Module)
| Residual (modules : list Module)
| Sum (modules : list Module)
| Lambda (func : Value -> Result Value)
| Embedding (num_embeddings embedding_dim : nat) (weight : nat -> nat -> scalar)
| LayerNorm (normalized_shape : nat) (eps : Q) (p : NormParams)
| SelfAttention (embedding_dim num_heads : nat) (is_causal : bool)
    (q k v o : LinearParams)
| Linear (in_features out_features : nat) (p : LinearParams)
| GeLU
| ApproximateGeLU
| Converter (set_device set_dtype : bool)
| Tokenizer (t : CLIPTokenizer).

(** *** Leaves *)

(** The rows of an embedding table. *)
Definition embedding_row (embedding_dim : nat) (weight : nat -> nat -> scalar)
  (id : nat) : list scalar :=
  map (weight id) (seq 0 embedding_dim).

Definition embedding_table (num_embeddings embedding_dim : nat)
  (weight : nat -> nat -> scalar) : list (list scalar) :=
  map (embedding_row embedding_dim weight) (seq 0 num_embeddings).

(** Table lookup; an index outside [0, num_embeddings) is an error. *)
Definition embedding_forward (num_embeddings embedding_dim : nat)
  (weight : nat -> nat -> scalar) (x : Value) : Result Value :=
  match x with
  | Tokens t =>
      if forallb (forallb (fun id => id <? num_embeddings)) (idata t)
      then Ok (Hidden {| shape := (fst (ishape t), snd (ishape t), embedding_dim);
                         data := map (map (embedding_row embedding_dim weight)) (idata t) |})
      else Err IndexError
  | _ => Err TypeError
  end.

Definition self_attention_forward (embedding_dim num_heads : nat) (is_causal : bool)
  (q k v o : LinearParams) (x : Value) : Result Value :=
  if (num_heads =? 0) || negb (embedding_dim mod num_heads =? 0)
  then Err ShapeError
  else map_positions_seq x embedding_dim
         (self_attention_seq embedding_dim num_heads is_causal q k v o).

Definition tokenizer_forward (t : CLIPTokenizer) (x : Value) : Result Value :=
  match x with
  | Text batch =>
      Ok (Tokens {| ishape := (length batch, sequence_length t);
                    idata := map (encode t) batch |})
  | _ => Err TypeError
  end.

(** *** Containers *)

Section Combinators.

Context {A : Type} (f : A -> Value -> Result Value).

(** [fl.Chain]: each module feeds the next. *)
Fixpoint chain_with (ms : list A) (x : Value) : Result Value :=
  match ms with
  | [] => Ok x
  | m :: ms' => y <- f m x ;; chain_with ms' y
  end.

Fixpoint sum_rest (ms : list A) (x acc : Value) : Result Value :=
  match ms with
  | [] => Ok acc
  | m :: ms' => y <- f m x ;; acc' <- value_add acc y ;; sum_rest ms' x acc'
  end.

(** [fl.Sum]: every module reads the same input, the outputs are added
    from left to right. *)
Definition sum_with (ms : list A) (x : Value) : Result Value :=
  match ms with
  | [] => Err TypeError
  | m :: ms' => y <- f m x ;; sum_rest ms' x y
  end.

(** Modelled from the spec: [fl.Residual], "output = input +
    sublayer(input)", the sublayer being the chain of the modules given. *)
Definition residual_with (ms : list A) (x : Value) : Result Value :=
  y <- chain_with ms x ;; value_add x y.

End Combinators.

(** Modelled from the spec: the forward pass of the [fl] layers, which
    [refiners.fluxion.layers] defines. *)
Fixpoint forward (m : Module) (x : Value) {struct m} : Result Value :=
  match m with
  | Chain ms => chain_with forward ms x
  | Residual ms => residual_with forward ms x
  | Sum ms => sum_with forward ms x
  | Lambda func => func x
  | Embedding n d w => embedding_forward n d w x
  | LayerNorm n eps p => map_positions n n (layer_norm_vec eps p) x
  | SelfAttention d h c q k v o => self_attention_forward d h c q k v o x
  | Linear i o p => map_positions i o (linear_vec i o p) x
  | GeLU => map_entries s_gelu x
  | ApproximateGeLU => map_entries s_approx_gelu x
  | Converter _ _ => Ok x
  | Tokenizer t => tokenizer_forward t x
  end.

(** *** Walking and rewriting the tree *)

Definition Path : Type := list nat.

Definition is_GeLU (m : Module) : bool :=
  match m with
  | GeLU => true
  | _ => false
  end.

Definition is_activation (m : Module) : bool :=
  match m with
  | GeLU | ApproximateGeLU => true
  | _ => false
  end.

Section Walk.

Context {A : Type} (predicate : A -> bool) (descend : A -> list Path).

Fixpoint walk_children (i : nat) (ms : list A) : list Path :=
  match ms with
  | [] => []
  | m :: ms' =>
      (if predicate m then [[i]] else map (cons i) (descend m))
        ++ walk_children (S i) ms'
  end.

End Walk.

(** Modelled from the spec: [fl.Chain.walk], which yields every module of
    the composed structure that satisfies the predicate, together with
    its parent.  A yielded pair is named by the path from the root. *)
Fixpoint walk (predicate : Module -> bool) (m : Module) {struct m} : list Path :=
  match m with
  | Chain ms | Residual ms | Sum ms => walk_children predicate (walk predicate) 0 ms
  | _ => []
  end.

Fixpoint update_nth {A : Type} (i : nat) (f : A -> A) (l : list A) : list A :=
  match l, i with
  | [], _ => []
  | a :: l', 0 => f a :: l'
  | a :: l', S i' => a :: update_nth i' f l'
  end.

(** Modelled from the spec: [parent.replace(old_module, new_module)], the
    in-place substitution of one child of [parent]. *)
Fixpoint replace_at (p : Path) (new_module : Module) (m : Module) : Module :=
  match p with
  | [] => new_module
  | i :: p' =>
      match m with
      | Chain ms => Chain (update_nth i (replace_at p' new_module) ms)
      | Residual ms => Residual (update_nth i (replace_at p' new_module) ms)
      | Sum ms => Sum (update_nth i (replace_at p' new_module) ms)
      | _ => m
      end
  end.

(** The loop at the end of [CLIPTextEncoder.__init__]. *)
Definition quick_gelu_pass (m : Module) : Module :=
  fold_left (fun acc p => replace_at p ApproximateGeLU acc) (walk is_GeLU m) m.

(** The rewrite as the specification words it: every exact-GeLU instance
    becomes an approximate one and nothing else changes. *)
Fixpoint swap_activations (m : Module) : Module :=
  match m with
  | Chain ms => Chain (map swap_activations ms)
  | Residual ms => Residual (map swap_activations ms)
  | Sum ms => Sum (map swap_activations ms)
  | GeLU => ApproximateGeLU
  | _ => m
  end.

Fixpoint lookup (p : Path) (m : Module) : option Module :=
  match p with
  | [] => Some m
  | i :: p' =>
      match m with
      | Chain ms | Residual ms | Sum ms =>
          match nth_error ms i with
          | Some c => lookup p' c
          | None => None
          end
      | _ => None
      end
  end.

(** ** The classes of the source *)

(** Where the parameters come from: one indexing function per path in the
    module tree (the runtime's initialiser, or a loaded checkpoint). *)
Definition Params : Type := Path -> nat -> nat -> scalar.

Definition sub (theta : Params) (i : nat) : Params := fun p => theta (i :: p).

Definition linear_params (theta : Params) : LinearParams :=
  {| lweight := theta [0]; lbias := fun j => theta [1] j 0 |}.

Definition norm_params (theta : Params) : NormParams :=
  {| nweight := fun j => theta [0] j 0; nbias := fun j => theta [1] j 0 |}.

Definition TokenEncoder (vocabulary_size embedding_dim : nat) (theta : Params) : Module :=
  Embedding vocabulary_size embedding_dim (theta []).

(** [arange(end=max_sequence_length).reshape(1, -1)] *)
Definition position_ids (max_sequence_length : nat) : IntTensor :=
  {| ishape := (1, max_sequence_length); idata := [seq 0 max_sequence_length] |}.

(** [t[:, :n]]: a slice stops at the end of the dimension. *)
Definition slice_columns (t : IntTensor) (n : nat) : IntTensor :=
  {| ishape := (fst (ishape t), Nat.min n (snd (ishape t)));
     idata := map (firstn n) (idata t) |}.

(** [x.shape[1]] *)
Definition shape_1 (x : Value) : Result nat :=
  match x with
  | Text _ => Err TypeError
  | Tokens t => Ok (snd (ishape t))
  | Hidden t => Ok (snd (fst (shape t)))
  end.

Definition get_position_ids (max_sequence_length : nat) (x : Value) : Result Value :=
  n <- shape_1 x ;;
  Ok (Tokens (slice_columns (position_ids max_sequence_length) n)).

Definition PositionalEncoder (max_sequence_length embedding_dim : nat)
  (theta : Params) : Module :=
  Chain [ Lambda (get_position_ids max_sequence_length);
          Embedding max_sequence_length embedding_dim (theta [1]) ].

Definition FeedForward (embedding_dim feedforward_dim : nat) (theta : Params) : Module :=
  Chain [ Linear embedding_dim feedforward_dim (linear_params (sub theta 0));
          GeLU;
          Linear feedforward_dim embedding_dim (linear_params (sub theta 2)) ].

(** Modelled from the spec: the constructor of [fl.SelfAttention], with
    "num_attention_heads heads dividing embedding_dim evenly" checked when
    the module is built. *)
Definition new_SelfAttention (embedding_dim num_heads : nat) (is_causal : bool)
  (theta : Params) : Result Module :=
  if num_heads =? 0 then Err ZeroDivisionError
  else if embedding_dim mod num_heads =? 0
       then Ok (SelfAttention embedding_dim num_heads is_causal
                  (linear_params (sub theta 0)) (linear_params (sub theta 1))
                  (linear_params (sub theta 2)) (linear_params (sub theta 3)))
       else Err AssertionError.

Definition TransformerLayer (embedding_dim feedforward_dim num_attention_heads : nat)
  (layer_norm_eps : Q) (theta : Params) : Result Module :=
  attention <- new_SelfAttention embedding_dim num_attention_heads true
                 (sub (sub theta 0) 1) ;;
  Ok (Chain [ Residual [ LayerNorm embedding_dim layer_norm_eps
                           (norm_params (sub (sub theta 0) 0));
                         attention ];
              Residual [ LayerNorm embedding_dim layer_norm_eps
                           (norm_params (sub (sub theta 1) 0));
                         FeedForward embedding_dim feedforward_dim
                           (sub (sub theta 1) 1) ] ]).

(** The keyword arguments of [CLIPTextEncoder.__init__]. *)
Record Args : Type := {
  embedding_dim : nat;
  max_sequence_length : nat;
  vocabulary_size : nat;
  num_layers : nat;
  num_attention_heads : nat;
  feedforward_dim : nat;
  layer_norm_eps : Q;
  use_quick_gelu : bool;
  tokenizer : option CLIPTokenizer
}.

(** The defaults of the signature; [1e-5] is the decimal literal. *)
Definition default_args : Args := {|
  embedding_dim := 768;
  max_sequence_length := 77;
  vocabulary_size := 49408;
  num_layers := 12;
  num_attention_heads := 12;
  feedforward_dim := 3072;
  layer_norm_eps := (1 # 100000)%Q;
  use_quick_gelu := false;
  tokenizer := None
|}.

(** [tokenizer or CLIPTokenizer(sequence_length=max_sequence_length)] *)
Definition tokenizer_of (a : Args) : CLIPTokenizer :=
  match tokenizer a with
  | Some t => t
  | None => new_CLIPTokenizer (Some (max_sequence_length a)) None
  end.

Definition transformer_layers (a : Args) (theta : Params) : Result (list Module) :=
  map_result
    (fun i => TransformerLayer (embedding_dim a) (feedforward_dim a)
                (num_attention_heads a) (layer_norm_eps a) (sub theta (3 + i)))
    (seq 0 (num_layers a)).

(** The modules that follow the tokenizer in the encoder's chain. *)
Definition encoder_body (a : Args) (theta : Params) (layers : list Module) : list Module :=
  [ Converter true false;
    Sum [ TokenEncoder (vocabulary_size a) (embedding_dim a) (sub (sub theta 2) 0);
          PositionalEncoder (max_sequence_length a) (embedding_dim a)
            (sub (sub theta 2) 1) ] ]
  ++ layers
  ++ [ LayerNorm (embedding_dim a) (layer_norm_eps a)
         (norm_params (sub theta (3 + num_layers a))) ].

Definition CLIPTextEncoder (a : Args) (theta : Params) : Result Module :=
  layers <- transformer_layers a theta ;;
  let encoder := Chain (Tokenizer (tokenizer_of a) :: encoder_body a theta layers) in
  Ok (if use_quick_gelu a then quick_gelu_pass encoder else encoder).

(** [self(EmptyString)] *)
Definition unconditional_text_embedding (encoder : Module) : Result Value :=
  forward encoder (Text [EmptyString]).

(** *** The presets *)

Definition CLIPTextEncoderL_args : Args := {|
  embedding_dim := 768;
  max_sequence_length := max_sequence_length default_args;
  vocabulary_size := vocabulary_size default_args;
  num_layers := 12;
  num_attention_heads := 12;
  feedforward_dim := 3072;
  layer_norm_eps := layer_norm_eps default_args;
  use_quick_gelu := true;
  tokenizer := tokenizer default_args
|}.

Definition CLIPTextEncoderH_args : Args := {|
  embedding_dim := 1024;
  max_sequence_length := max_sequence_length default_args;
  vocabulary_size := vocabulary_size default_args;
  num_layers := 23;
  num_attention_heads := 16;
  feedforward_dim := 4096;
  layer_norm_eps := layer_norm_eps default_args;
  use_quick_gelu := use_quick_gelu default_args;
  tokenizer := tokenizer default_args
|}.

Definition CLIPTextEncoderG_args : Args := {|
  embedding_dim := 1280;
  max_sequence_length := max_sequence_length default_args;
  vocabulary_size := vocabulary_size default_args;
  num_layers := 32;
  num_attention_heads := 20;
  feedforward_dim := 5120;
  layer_norm_eps := layer_norm_eps default_args;
  use_quick_gelu := use_quick_gelu default_args;
  tokenizer := Some (new_CLIPTokenizer None (Some 0))
|}.

Definition CLIPTextEncoderL : Params -> Result Module := CLIPTextEncoder CLIPTextEncoderL_args.
Definition CLIPTextEncoderH : Params -> Result Module := CLIPTextEncoder CLIPTextEncoderH_args.
Definition CLIPTextEncoderG : Params -> Result Module := CLIPTextEncoder CLIPTextEncoderG_args.

Definition presets : list Args :=
  [CLIPTextEncoderL_args; CLIPTextEncoderH_args; CLIPTextEncoderG_args].

(** *** Reading a configuration *)

(** The tokenizer the encoder ends up with pads with an id other than the
    tokenizer's default. *)
Definition non_default_pad_token (a : Args) : bool :=
  negb (pad_token_id (tokenizer_of a) =? default_pad_token_id).

(** The preset hands its own tokenizer to [CLIPTextEncoder.__init__]. *)
Definition passes_tokenizer (a : Args) : bool :=
  match tokenizer a with
  | Some _ => true
  | None => false
  end.

(** The presets as the specification lists them: the three sets of
    sizes, L and G each with a custom pad-token convention of its own,
    two such presets in all. *)
Definition presets_as_specified : Prop :=
  (embedding_dim CLIPTextEncoderL_args = 768 /\
   num_layers CLIPTextEncoderL_args = 12 /\
   num_attention_heads CLIPTextEncoderL_args = 12 /\
   use_quick_gelu CLIPTextEncoderL_args = true /\
   non_default_pad_token CLIPTextEncoderL_args = true) /\
  (embedding_dim CLIPTextEncoderH_args = 1024 /\
   num_layers CLIPTextEncoderH_args = 23 /\
   num_attention_heads CLIPTextEncoderH_args = 16 /\
   use_quick_gelu CLIPTextEncoderH_args = false) /\
  (embedding_dim CLIPTextEncoderG_args = 1280 /\
   num_layers CLIPTextEncoderG_args = 32 /\
   num_attention_heads CLIPTextEncoderG_args = 20 /\
   use_quick_gelu CLIPTextEncoderG_args = false /\
   non_default_pad_token CLIPTextEncoderG_args = true /\
   pad_token_id (tokenizer_of CLIPTextEncoderG_args)
   <> pad_token_id (tokenizer_of CLIPTextEncoderL_args)) /\
  length (filter non_default_pad_token presets) = 2.

(** Rejection at construction as the specification asks for it: whenever
    the number of heads does not divide the width. *)
Definition rejects_every_uneven_configuration : Prop :=
  forall (a : Args) (theta : Params),
    embedding_dim a mod num_attention_heads a <> 0 ->
    is_ok (CLIPTextEncoder a theta) = false.

(** The modules a container holds; a leaf holds none. *)
Definition children (m : Module) : option (list Module) :=
  match m with
  | Chain ms | Residual ms | Sum ms => Some ms
  | _ => None
  end.

(** The same call with another value for [use_quick_gelu]. *)
Definition with_use_quick_gelu (a : Args) (b : bool) : Args := {|
  embedding_dim := embedding_dim a;
  max_sequence_length := max_sequence_length a;
  vocabulary_size := vocabulary_size a;
  num_layers := num_layers a;
  num_attention_heads := num_attention_heads a;
  feedforward_dim := feedforward_dim a;
  layer_norm_eps := layer_norm_eps a;
  use_quick_gelu := b;
  tokenizer := tokenizer a
|}.

(** ** Specification predicates *)

(** A transformer layer of the encoder configured by [a], whichever of
    the two activations it carries. *)
Definition is_transformer_layer (a : Args) (m : Module) : Prop :=
  num_attention_heads a <> 0 /\
  embedding_dim a mod num_attention_heads a = 0 /\
  exists n1 q k v o n2 w1 act w2,
    is_activation act = true /\
    m = Chain [ Residual [ LayerNorm (embedding_dim a) (layer_norm_eps a) n1;
                           SelfAttention (embedding_dim a) (num_attention_heads a)
                             true q k v o ];
                Residual [ LayerNorm (embedding_dim a) (layer_norm_eps a) n2;
                           Chain [ Linear (embedding_dim a) (feedforward_dim a) w1;
                                   act;
                                   Linear (feedforward_dim a) (embedding_dim a) w2 ] ] ].

(** Two values of the same shape whose sequences agree on their first
    [k] positions, batch entry by batch entry. *)
Definition agree_upto (k : nat) (x y : Value) : Prop :=
  match x, y with
  | Tokens a, Tokens b =>
      ishape a = ishape b /\
      Forall2 (fun r r' => firstn k r = firstn k r') (idata a) (idata b)
  | Hidden a, Hidden b =>
      shape a = shape b /\
      Forall2 (fun r r' => firstn k r = firstn k r') (data a) (data b)
  | _, _ => False
  end.

(** A function of values that lets nothing flow from later positions to
    earlier ones. *)
Definition respects_prefixes (f : Value -> Result Value) : Prop :=
  forall k x y x' y',
    agree_upto k x y -> f x = Ok x' -> f y = Ok y' -> agree_upto k x' y'.

Section All.

Context {A : Type} (P : A -> Prop).

Fixpoint all_with (l : list A) : Prop :=
  match l with
  | [] => True
  | a :: l' => P a /\ all_with l'
  end.

End All.

(** Trees in which every attention is causal and every lambda respects
    prefixes. *)
Fixpoint causal (m : Module) : Prop :=
  match m with
  | Chain ms | Residual ms | Sum ms => all_with causal ms
  | Lambda func => respects_prefixes func
  | SelfAttention _ _ is_causal _ _ _ _ => is_causal = true
  | _ => True
  end.

(** The module accepts every hidden-state tensor of shape [s] and
    returns one of shape [s']. *)
Definition maps_shape (m : Module) (s s' : nat * nat * nat) : Prop :=
  forall t, has_shape t s ->
            exists t', forward m (Hidden t) = Ok (Hidden t') /\ has_shape t' s'.

(** ** Further vocabulary for the statements *)

Definition is_ApproximateGeLU (m : Module) : bool :=
  match m with
  | ApproximateGeLU => true
  | _ => false
  end.

(** What the chain of [FeedForward] does to one embedding vector. *)
Definition feed_forward_vec (embedding_dim feedforward_dim : nat) (theta : Params)
  (v : list scalar) : list scalar :=
  linear_vec feedforward_dim embedding_dim (linear_params (sub theta 2))
    (map s_gelu
       (linear_vec embedding_dim feedforward_dim (linear_params (sub theta 0)) v)).

(** [y] is entry [k] of the batch [x] of size [b], taken as a batch of
    one. *)
Definition batch_entry (b k : nat) (x y : Value) : Prop :=
  match x, y with
  | Tokens s, Tokens t =>
      exists l row,
        ishape s = (b, l) /\ ishape t = (1, l) /\
        nth_error (idata s) k = Some row /\ idata t = [row]
  | Hidden s, Hidden t =>
      exists l d row,
        shape s = (b, l, d) /\ shape t = (1, l, d) /\
        nth_error (data s) k = Some row /\ data t = [row]
  | _, _ => False
  end.

(** Trees made of chains, residuals and leaves that treat the entries of
    a batch one by one. *)
Fixpoint batchwise (m : Module) : Prop :=
  match m with
  | Chain ms | Residual ms => all_with batchwise ms
  | Sum _ | Lambda _ => False
  | _ => True
  end.

(** A function of values that maps entry [k] of a batch to entry [k] of
    the result, and accepts the entry alone whenever it accepts the
    batch. *)
Definition keeps_batch_entries (f : Value -> Result Value) : Prop :=
  forall b k x y x',
    batch_entry b k x y -> f x = Ok x' ->
    exists y', f y = Ok y' /\ batch_entry b k x' y'.

(** The same call with another [tokenizer] argument. *)
Definition with_tokenizer (a : Args) (t : option CLIPTokenizer) : Args := {|
  embedding_dim := embedding_dim a;
  max_sequence_length := max_sequence_length a;
  vocabulary_size := vocabulary_size a;
  num_layers := num_layers a;
  num_attention_heads := num_attention_heads a;
  feedforward_dim := feedforward_dim a;
  layer_norm_eps := layer_norm_eps a;
  use_quick_gelu := use_quick_gelu a;
  tokenizer := t
|}.

End Model.

(** ** A small configuration to run *)

Definition small_theta : @Params ZRuntime :=
  fun p i j => Z.of_nat (i * i + 3 * i * j + j + length p + fold_right Nat.add 0 p).

Definition small_args : Args := {|
  embedding_dim := 4;
  max_sequence_length := 4;
  vocabulary_size := 258;
  num_layers := 2;
  num_attention_heads := 2;
  feedforward_dim := 3;
  layer_norm_eps := (1 # 100000)%Q;
  use_quick_gelu := false;
  tokenizer := None
|}.

(** Three heads for a width of four. *)
Definition uneven_args : Args := {|
  embedding_dim := 4;
  max_sequence_length := 4;
  vocabulary_size := 258;
  num_layers := 2;
  num_attention_heads := 3;
  feedforward_dim := 3;
  layer_norm_eps := (1 # 100000)%Q;
  use_quick_gelu := false;
  tokenizer := None
|}.

(** The same with no layer at all. *)
Definition uneven_args_without_layers : Args := {|
  embedding_dim := 4;
  max_sequence_length := 4;
  vocabulary_size := 258;
  num_layers := 0;
  num_attention_heads := 3;
  feedforward_dim := 3;
  layer_norm_eps := (1 # 100000)%Q;
  use_quick_gelu := false;
  tokenizer := None
|}.

Definition get_module (r : Result (@Module ZRuntime)) : @Module ZRuntime :=
  match r with
  | Ok m => m
  | Err _ => Chain []
  end.

Definition get_tensor (r : Result (@Value ZRuntime)) : @Tensor ZRuntime :=
  match r with
  | Ok (Hidden t) => t
  | _ => {| shape := (0, 0, 0); data := [] |}
  end.

Definition small_layer : @Module ZRuntime :=
  get_module (@TransformerLayer ZRuntime 4 3 2 (1 # 100000)%Q (sub small_theta 3)).

Definition small_encoder : @Module ZRuntime :=
  get_module (@CLIPTextEncoder ZRuntime ToyBackend small_args small_theta).

Definition output_ab : @Tensor ZRuntime :=
  get_tensor (@forward ZRuntime ToyBackend small_encoder (Text ["ab"%string])).

Definition output_ac : @Tensor ZRuntime :=
  get_tensor (@forward ZRuntime ToyBackend small_encoder (Text ["ac"%string])).

(** A vocabulary too small for the ids of [ToyBackend]. *)
Definition small_vocabulary_args : Args := {|
  embedding_dim := 4;
  max_sequence_length := 4;
  vocabulary_size := 100;
  num_layers := 2;
  num_attention_heads := 2;
  feedforward_dim := 3;
  layer_norm_eps := (1 # 100000)%Q;
  use_quick_gelu := false;
  tokenizer := None
|}.

(** A tokenizer handed in that pads to six ids, for four positions. *)
Definition long_tokenizer_args : Args := {|
  embedding_dim := 4;
  max_sequence_length := 4;
  vocabulary_size := 258;
  num_layers := 2;
  num_attention_heads := 2;
  feedforward_dim := 3;
  layer_norm_eps := (1 # 100000)%Q;
  use_quick_gelu := false;
  tokenizer := Some {| sequence_length := 6; pad_token_id := 257 |}
|}.

Definition small_vocabulary_encoder : @Module ZRuntime :=
  get_module (@CLIPTextEncoder ZRuntime ToyBackend small_vocabulary_args small_theta).

Definition long_tokenizer_encoder : @Module ZRuntime :=
  get_module (@CLIPTextEncoder ZRuntime ToyBackend long_tokenizer_args small_theta).

Definition output_ab_ac : @Tensor ZRuntime :=
  get_tensor (@forward ZRuntime ToyBackend small_encoder
                (Text ["ab"%string; "ac"%string])).

Definition three_token_ids : IntTensor :=
  {| ishape := (2, 3); idata := [[256; 98; 257]; [256; 99; 257]] |}.

(** Two tokenizers of four ids that pad differently. *)
Definition padding_257 : CLIPTokenizer := {| sequence_length := 4; pad_token_id := 257 |}.

Definition padding_0 : CLIPTokenizer := {| sequence_length := 4; pad_token_id := 0 |}.

Definition padding_257_encoder : @Module ZRuntime :=
  get_module (@CLIPTextEncoder ZRuntime ToyBackend
                (with_tokenizer small_args (Some padding_257)) small_theta).

Definition padding_0_encoder : @Module ZRuntime :=
  get_module (@CLIPTextEncoder ZRuntime ToyBackend
                (with_tokenizer small_args (Some padding_0)) small_theta).

Definition output_a_padding_257 : @Tensor ZRuntime :=
  get_tensor (@forward ZRuntime ToyBackend padding_257_encoder (Text ["a"%string])).

Definition output_a_padding_0 : @Tensor ZRuntime :=
  get_tensor (@forward ZRuntime ToyBackend padding_0_encoder (Text ["a"%string])).

Definition three_tokens : @Value ZRuntime :=
  Tokens {| ishape := (1, 3); idata := [[256; 97; 257]] |}.

Definition three_other_tokens : @Value ZRuntime :=
  Tokens {| ishape := (2, 3); idata := [[256; 98; 257]; [256; 99; 257]] |}.

(** * Properties *)

Section Properties.

Context {RT : Runtime} {TB : TokenizerBackend}.

(** ** The error monad *)

Lemma bind_ok_inv {A B : Type} (r : Result A) (k : A -> Result B) (b : B) :
  (x <- r ;; k x) = Ok b -> exists a, r = Ok a /\ k a = Ok b.
Proof.
  destruct r as [a | e]; simpl; intros H.
  - exists a; split; [reflexivity | exact H].
  - discriminate H.
Qed.

Lemma map_result_Forall2 {A B : Type} (f : A -> Result B) (l : list A) (l' : list B) :
  map_result f l = Ok l' -> Forall2 (fun a b => f a = Ok b) l l'.
Proof.
  revert l'; induction l as [| a l IH]; simpl; intros l' H.
  - injection H as <-. constructor.
  - apply bind_ok_inv in H as (b & Hb & H).
    apply bind_ok_inv in H as (bs & Hbs & H).
    injection H as <-. constructor; auto.
Qed.

Lemma map_result_first_error {A B : Type} (f : A -> Result B) (a : A) (l : list A)
  (e : Error) :
  f a = Err e -> map_result f (a :: l) = Err e.
Proof. intros H; simpl; rewrite H; reflexivity. Qed.

(** ** Construction *)

Lemma new_SelfAttention_inv (d h : nat) (c : bool) (theta : Params) (m : Module) :
  new_SelfAttention d h c theta = Ok m ->
  h <> 0 /\ d mod h = 0 /\
  m = SelfAttention d h c (linear_params (sub theta 0)) (linear_params (sub theta 1))
        (linear_params (sub theta 2)) (linear_params (sub theta 3)).
Proof.
  unfold new_SelfAttention.
  destruct (h =? 0) eqn:Hh; [discriminate |].
  destruct (d mod h =? 0) eqn:Hd; [| discriminate].
  intros H; injection H as <-.
  apply Nat.eqb_neq in Hh. apply Nat.eqb_eq in Hd. auto.
Qed.

Lemma new_SelfAttention_rejects (d h : nat) (c : bool) (theta : Params) :
  d mod h <> 0 ->
  new_SelfAttention d h c theta
  = Err (if h =? 0 then ZeroDivisionError else AssertionError).
Proof.
  intros H. unfold new_SelfAttention.
  destruct (h =? 0); [reflexivity |].
  apply Nat.eqb_neq in H. rewrite H. reflexivity.
Qed.

Lemma TransformerLayer_inv (d f h : nat) (eps : Q) (theta : Params) (layer : Module) :
  TransformerLayer d f h eps theta = Ok layer ->
  h <> 0 /\ d mod h = 0 /\
  layer =
    Chain [ Residual [ LayerNorm d eps (norm_params (sub (sub theta 0) 0));
                       SelfAttention d h true
                         (linear_params (sub (sub (sub theta 0) 1) 0))
                         (linear_params (sub (sub (sub theta 0) 1) 1))
                         (linear_params (sub (sub (sub theta 0) 1) 2))
                         (linear_params (sub (sub (sub theta 0) 1) 3)) ];
            Residual [ LayerNorm d eps (norm_params (sub (sub theta 1) 0));
                       FeedForward d f (sub (sub theta 1) 1) ] ].
Proof.
  unfold TransformerLayer. intros H.
  apply bind_ok_inv in H as (attention & Ha & H).
  apply new_SelfAttention_inv in Ha as (Hh & Hd & ->).
  injection H as <-. auto.
Qed.

Lemma TransformerLayer_rejects (d f h : nat) (eps : Q) (theta : Params) :
  d mod h <> 0 ->
  TransformerLayer d f h eps theta
  = Err (if h =? 0 then ZeroDivisionError else AssertionError).
Proof.
  intros H. unfold TransformerLayer.
  rewrite new_SelfAttention_rejects by exact H. reflexivity.
Qed.

Lemma TransformerLayer_accepts (d f h : nat) (eps : Q) (theta : Params) :
  h <> 0 -> d mod h = 0 -> exists layer, TransformerLayer d f h eps theta = Ok layer.
Proof.
  intros Hh Hd. unfold TransformerLayer, new_SelfAttention.
  apply Nat.eqb_neq in Hh. apply Nat.eqb_eq in Hd. rewrite Hh, Hd.
  simpl. eexists; reflexivity.
Qed.

Lemma map_result_accepts {A B : Type} (f : A -> Result B) (l : list A) :
  (forall a, exists b, f a = Ok b) ->
  exists l', map_result f l = Ok l' /\ length l' = length l.
Proof.
  intros Hf. induction l as [| a l (l' & Hl' & Hlen)]; simpl.
  - exists []; auto.
  - destruct (Hf a) as (b & Hb). rewrite Hb, Hl'. simpl.
    exists (b :: l'); simpl; auto.
Qed.

Lemma transformer_layers_accepts (a : Args) (theta : Params) :
  num_attention_heads a <> 0 ->
  embedding_dim a mod num_attention_heads a = 0 ->
  exists layers,
    transformer_layers a theta = Ok layers /\ length layers = num_layers a.
Proof.
  intros Hh Hd. unfold transformer_layers.
  match goal with
  | |- exists layers, map_result ?f ?l = _ /\ _ =>
      destruct (map_result_accepts f l) as (layers & Hl & Hlen)
  end.
  - intros i. now apply TransformerLayer_accepts.
  - rewrite length_seq in Hlen. exists layers; auto.
Qed.

Lemma CLIPTextEncoder_inv (a : Args) (theta : Params) (encoder : Module) :
  CLIPTextEncoder a theta = Ok encoder ->
  exists layers,
    transformer_layers a theta = Ok layers /\
    encoder =
      (if use_quick_gelu a
       then quick_gelu_pass (Chain (Tokenizer (tokenizer_of a) :: encoder_body a theta layers))
       else Chain (Tokenizer (tokenizer_of a) :: encoder_body a theta layers)).
Proof.
  unfold CLIPTextEncoder. intros H.
  apply bind_ok_inv in H as (layers & Hl & H).
  injection H as <-. exists layers; auto.
Qed.

(** ** The default configuration and the presets *)

(** The shape of one transformer layer for given sizes, parameters left
    open. *)
Lemma transformer_layers_form (a : Args) (theta : Params) (layers : list Module) :
  transformer_layers a theta = Ok layers ->
  Forall (fun layer =>
            exists n1 q k v o n2 w1 w2,
              layer =
                Chain [ Residual [ LayerNorm (embedding_dim a) (layer_norm_eps a) n1;
                                   SelfAttention (embedding_dim a) (num_attention_heads a)
                                     true q k v o ];
                        Residual [ LayerNorm (embedding_dim a) (layer_norm_eps a) n2;
                                   Chain [ Linear (embedding_dim a) (feedforward_dim a) w1;
                                           GeLU;
                                           Linear (feedforward_dim a) (embedding_dim a) w2 ] ] ])
         layers.
Proof.
  intros H. apply map_result_Forall2 in H.
  induction H as [| i layer l l' Hl _ IH]; constructor; [| exact IH].
  apply TransformerLayer_inv in Hl as (_ & _ & ->).
  unfold FeedForward. repeat eexists.
Qed.

(** C10: with no argument given, [CLIPTextEncoder] builds a tokenizer of
    sequence length 77 = max_sequence_length with the default pad token,
    a 49408 x 768 token table, a 77 x 768 position table, 12 layers of
    width 768 with 12 causal heads, a 3072-wide feed-forward with the
    exact GeLU and epsilon 1e-5, and a final LayerNorm of width 768. *)
Theorem default_construction (theta : Params) :
  exists tok_w pos_w final_p layers,
    CLIPTextEncoder default_args theta
    = Ok (Chain (Tokenizer {| sequence_length := 77;
                              pad_token_id := default_pad_token_id |}
                 :: Converter true false
                 :: Sum [ Embedding 49408 768 tok_w;
                          Chain [ Lambda (get_position_ids 77);
                                  Embedding 77 768 pos_w ] ]
                 :: layers ++ [ LayerNorm 768 (1 # 100000) final_p ])) /\
    length layers = 12 /\
    Forall (fun layer =>
              exists n1 q k v o n2 w1 w2,
                layer =
                  Chain [ Residual [ LayerNorm 768 (1 # 100000) n1;
                                     SelfAttention 768 12 true q k v o ];
                          Residual [ LayerNorm 768 (1 # 100000) n2;
                                     Chain [ Linear 768 3072 w1;
                                             GeLU;
                                             Linear 3072 768 w2 ] ] ])
           layers /\
    sequence_length (tokenizer_of default_args) = max_sequence_length default_args /\
    use_quick_gelu default_args = false.
Proof.
  destruct (transformer_layers_accepts default_args theta) as (layers & Hl & Hlen);
    [discriminate | reflexivity |].
  do 3 eexists. exists layers. split; [| split; [| split; [| split]]].
  - unfold CLIPTextEncoder. rewrite Hl. reflexivity.
  - exact Hlen.
  - exact (transformer_layers_form default_args theta layers Hl).
  - reflexivity.
  - reflexivity.
Qed.

(** C4, as the source has it: L is 768/12/12 with the approximate GeLU,
    H is 1024/23/16 and G is 1280/32/20 with the exact one; L and H pass
    no tokenizer and get the default pad token, and G alone passes a
    tokenizer, configured with pad_token_id = 0.  All three are
    accepted by the constructor. *)
Theorem preset_hyperparameters (theta : Params) :
  (embedding_dim CLIPTextEncoderL_args = 768 /\
   num_layers CLIPTextEncoderL_args = 12 /\
   num_attention_heads CLIPTextEncoderL_args = 12 /\
   use_quick_gelu CLIPTextEncoderL_args = true /\
   tokenizer CLIPTextEncoderL_args = None /\
   pad_token_id (tokenizer_of CLIPTextEncoderL_args) = default_pad_token_id) /\
  (embedding_dim CLIPTextEncoderH_args = 1024 /\
   num_layers CLIPTextEncoderH_args = 23 /\
   num_attention_heads CLIPTextEncoderH_args = 16 /\
   use_quick_gelu CLIPTextEncoderH_args = false /\
   tokenizer CLIPTextEncoderH_args = None /\
   pad_token_id (tokenizer_of CLIPTextEncoderH_args) = default_pad_token_id) /\
  (embedding_dim CLIPTextEncoderG_args = 1280 /\
   num_layers CLIPTextEncoderG_args = 32 /\
   num_attention_heads CLIPTextEncoderG_args = 20 /\
   use_quick_gelu CLIPTextEncoderG_args = false /\
   tokenizer CLIPTextEncoderG_args = Some (new_CLIPTokenizer None (Some 0)) /\
   pad_token_id (tokenizer_of CLIPTextEncoderG_args) = 0) /\
  filter passes_tokenizer presets = [CLIPTextEncoderG_args] /\
  (exists l h g,
     CLIPTextEncoderL theta = Ok l /\
     CLIPTextEncoderH theta = Ok h /\
     CLIPTextEncoderG theta = Ok g).
Proof.
  repeat split.
  destruct (transformer_layers_accepts CLIPTextEncoderL_args theta) as (ll & Hl & _);
    [discriminate | reflexivity |].
  destruct (transformer_layers_accepts CLIPTextEncoderH_args theta) as (lh & Hh & _);
    [discriminate | reflexivity |].
  destruct (transformer_layers_accepts CLIPTextEncoderG_args theta) as (lg & Hg & _);
    [discriminate | reflexivity |].
  unfold CLIPTextEncoderL, CLIPTextEncoderH, CLIPTextEncoderG, CLIPTextEncoder.
  rewrite Hl, Hh, Hg. do 3 eexists. repeat split.
Qed.

(** ** Rejection of head counts that do not divide the width *)

(** C6, as the model has it: with at least one layer, a width that the
    number of heads does not divide makes the construction fail, in the
    constructor of the first layer's attention. *)
Theorem construction_rejects_uneven_heads (a : Args) (theta : Params) :
  1 <= num_layers a ->
  embedding_dim a mod num_attention_heads a <> 0 ->
  CLIPTextEncoder a theta
  = Err (if num_attention_heads a =? 0 then ZeroDivisionError else AssertionError).
Proof.
  intros Hn Hd. unfold CLIPTextEncoder, transformer_layers.
  destruct (num_layers a) as [| n]; [inversion Hn |].
  rewrite <- cons_seq.
  rewrite (map_result_first_error _ 0 _ _
             (TransformerLayer_rejects _ _ _ _ _ Hd)).
  reflexivity.
Qed.

(** ** The wiring of a transformer layer *)

Lemma forward_two_residuals (m1 m2 m3 m4 : Module) (x : Value) :
  forward (Chain [Residual [m1; m2]; Residual [m3; m4]]) x
  = (n1 <- forward m1 x ;; s1 <- forward m2 n1 ;; y <- value_add x s1 ;;
     n2 <- forward m3 y ;; s2 <- forward m4 n2 ;; value_add y s2).
Proof.
  cbn [forward chain_with]. unfold residual_with. cbn [chain_with].
  destruct (forward m1 x) as [n1 |]; cbn [bind]; [| reflexivity].
  destruct (forward m2 n1) as [s1 |]; cbn [bind]; [| reflexivity].
  destruct (value_add x s1) as [y |]; cbn [bind]; [| reflexivity].
  destruct (forward m3 y) as [n2 |]; cbn [bind]; [| reflexivity].
  destruct (forward m4 n2) as [s2 |]; cbn [bind]; [| reflexivity].
  destruct (value_add y s2); reflexivity.
Qed.

(** C1: a TransformerLayer is a chain of exactly two residual blocks,
    [LayerNorm; causal SelfAttention] and [LayerNorm; FeedForward], and
    it computes [y = x + SelfAttention(LayerNorm(x))] and then
    [y + FeedForward(LayerNorm(y))]: each norm feeds its sublayer and
    nothing is normalised after a residual sum. *)
Theorem transformer_layer_pre_norm (d f h : nat) (eps : Q) (theta : Params)
  (layer : Module) :
  TransformerLayer d f h eps theta = Ok layer ->
  exists n1 q k v o n2,
    let norm1 := LayerNorm d eps n1 in
    let attention := SelfAttention d h true q k v o in
    let norm2 := LayerNorm d eps n2 in
    let feed_forward := FeedForward d f (sub (sub theta 1) 1) in
    layer = Chain [Residual [norm1; attention]; Residual [norm2; feed_forward]] /\
    forall x,
      forward layer x
      = (a <- forward norm1 x ;; b <- forward attention a ;; y <- value_add x b ;;
         c <- forward norm2 y ;; e <- forward feed_forward c ;; value_add y e).
Proof.
  intros H. apply TransformerLayer_inv in H as (_ & _ & ->).
  do 6 eexists. split; [reflexivity |].
  intros x. apply forward_two_residuals.
Qed.

(** ** The positional encoder *)

Lemma forallb_lt_firstn_seq (n m : nat) :
  forallb (fun id => id <? m) (firstn n (seq 0 m)) = true.
Proof.
  apply forallb_forall. intros i Hi.
  apply Nat.ltb_lt.
  assert (Hin : In i (seq 0 m)).
  { rewrite <- (firstn_skipn n (seq 0 m)). apply in_or_app. now left. }
  apply in_seq in Hin. lia.
Qed.

(** What the positional encoder returns for any input with a sequence
    dimension of size [n]. *)
Lemma positional_encoder_forward (max d : nat) (theta : Params) (x : Value) (n : nat) :
  shape_1 x = Ok n ->
  forward (PositionalEncoder max d theta) x
  = Ok (Hidden {| shape := (1, Nat.min n max, d);
                  data := [firstn n (embedding_table max d (theta [1]))] |}).
Proof.
  intros Hx. unfold PositionalEncoder.
  cbn [forward chain_with]. unfold get_position_ids. rewrite Hx.
  cbn [bind embedding_forward slice_columns position_ids idata ishape
       forallb map fst snd].
  rewrite forallb_lt_firstn_seq. cbn [andb].
  unfold embedding_table. rewrite firstn_map. reflexivity.
Qed.

(** C5: for an input of sequence length [n <= max_sequence_length] the
    positional encoder returns the first [n] rows of its table, as one
    batch entry, and two inputs of that sequence length get the same
    embeddings whatever their values. *)
Theorem positional_encoder_prefix (max d : nat) (theta : Params) (x x' : Value) (n : nat) :
  shape_1 x = Ok n ->
  shape_1 x' = Ok n ->
  n <= max ->
  forward (PositionalEncoder max d theta) x
  = Ok (Hidden {| shape := (1, n, d);
                  data := [firstn n (embedding_table max d (theta [1]))] |}) /\
  firstn n (embedding_table max d (theta [1]))
  = map (embedding_row d (theta [1])) (seq 0 n) /\
  forward (PositionalEncoder max d theta) x'
  = forward (PositionalEncoder max d theta) x.
Proof.
  intros Hx Hx' Hn.
  rewrite (positional_encoder_forward max d theta x n Hx).
  rewrite (positional_encoder_forward max d theta x' n Hx').
  rewrite Nat.min_l by exact Hn.
  repeat split.
  unfold embedding_table. rewrite firstn_map. f_equal.
  replace max with (n + (max - n)) by lia.
  rewrite seq_app, firstn_app, length_seq, Nat.sub_diag, firstn_O, app_nil_r.
  apply firstn_all2. rewrite length_seq. lia.
Qed.

Lemma broadcast_dim_mismatch (a b : nat) :
  a <> b -> a <> 1 -> b <> 1 -> broadcast_dim a b = Err ShapeError.
Proof.
  intros Hab Ha Hb. unfold broadcast_dim.
  apply Nat.eqb_neq in Hab, Ha, Hb. now rewrite Hab, Ha, Hb.
Qed.

Lemma broadcast_dim_same (a : nat) : broadcast_dim a a = Ok a.
Proof. unfold broadcast_dim. now rewrite Nat.eqb_refl. Qed.

Lemma broadcast_dim_is_ok_1 (a : nat) : exists c, broadcast_dim a 1 = Ok c.
Proof.
  unfold broadcast_dim. destruct (a =? 1); simpl; eauto.
Qed.

(** C9: for an input longer than [max_sequence_length] the slice of the
    position ids stops at the end of the precomputed sequence, so it has
    [max_sequence_length] columns and not [n]; the positional encoder does
    not reject the input and returns its whole table, of the wrong
    length; the mismatch is met further down, by the sum with the token
    embeddings, which then fails as soon as the table has two rows. *)
Theorem positional_encoder_overlong (vocab max d : nat) (theta1 theta2 : Params)
  (x : Value) (n : nat) :
  shape_1 x = Ok n ->
  max < n ->
  get_position_ids max x = Ok (Tokens (position_ids max)) /\
  snd (ishape (position_ids max)) <> n /\
  forward (PositionalEncoder max d theta2) x
  = Ok (Hidden {| shape := (1, max, d);
                  data := [embedding_table max d (theta2 [1])] |}) /\
  (2 <= max ->
   is_ok (forward (Sum [TokenEncoder vocab d theta1; PositionalEncoder max d theta2]) x)
   = false).
Proof.
  intros Hx Hn.
  assert (Hpe : forward (PositionalEncoder max d theta2) x
                = Ok (Hidden {| shape := (1, max, d);
                                data := [embedding_table max d (theta2 [1])] |})).
  { rewrite (positional_encoder_forward max d theta2 x n Hx).
    rewrite Nat.min_r by lia.
    rewrite firstn_all2; [reflexivity |].
    unfold embedding_table. rewrite length_map, length_seq. lia. }
  split; [| split; [| split]].
  - unfold get_position_ids. rewrite Hx. cbn [bind]. do 2 f_equal.
    unfold slice_columns, position_ids; cbn [ishape idata fst snd map].
    rewrite Nat.min_r by lia.
    rewrite firstn_all2; [reflexivity | rewrite length_seq; lia].
  - cbn. lia.
  - exact Hpe.
  - intros Hmax. cbn [forward sum_with sum_rest] in *.
    destruct x as [batch | t | t]; cbn in Hx; try discriminate.
    + injection Hx as Hx. unfold TokenEncoder. cbn [forward embedding_forward].
      destruct (forallb _ (idata t)); [| reflexivity].
      cbn [bind]. rewrite Hpe. cbn [bind value_add tensor_add shape].
      destruct (broadcast_dim_is_ok_1 (fst (ishape t))) as (c & ->). cbn [bind].
      rewrite Hx, broadcast_dim_mismatch by lia. reflexivity.
    + reflexivity.
Qed.

(** ** The activation rewrite *)

Section ModuleInduction.

Variable P : Module -> Prop.
Hypothesis HChain : forall ms, Forall P ms -> P (Chain ms).
Hypothesis HResidual : forall ms, Forall P ms -> P (Residual ms).
Hypothesis HSum : forall ms, Forall P ms -> P (Sum ms).
Hypothesis HLeaf : forall m, children m = None -> P m.

Lemma Module_tree_ind (m : Module) : P m.
Proof.
  revert m. fix IH 1. intros m.
  assert (all : forall ms : list Module, Forall P ms).
  { induction ms as [| c ms IHms]; constructor; [apply IH | exact IHms]. }
  destruct m.
  - apply HChain, all.
  - apply HResidual, all.
  - apply HSum, all.
  - now apply HLeaf.
  - now apply HLeaf.
  - now apply HLeaf.
  - now apply HLeaf.
  - now apply HLeaf.
  - now apply HLeaf.
  - now apply HLeaf.
  - now apply HLeaf.
  - now apply HLeaf.
Qed.

End ModuleInduction.

Lemma update_nth_compose {A : Type} (i : nat) (f g : A -> A) (l : list A) :
  update_nth i g (update_nth i f l) = update_nth i (fun a => g (f a)) l.
Proof.
  revert i; induction l as [| a l IH]; intros [| i]; simpl; try reflexivity.
  now rewrite IH.
Qed.

Lemma update_nth_middle {A : Type} (f : A -> A) (pre : list A) (a : A) (post : list A) :
  update_nth (length pre) f (pre ++ a :: post) = pre ++ f a :: post.
Proof. induction pre as [| b pre IH]; simpl; [reflexivity | now rewrite IH]. Qed.

(** Rewrites below one child, run one after the other, are one rewrite of
    that child. *)
Lemma replace_below_child (K : list Module -> Module) (new_module : Module)
  (i : nat) (ps : list Path) (ms : list Module) :
  (forall p l, replace_at (i :: p) new_module (K l)
               = K (update_nth i (replace_at p new_module) l)) ->
  fold_left (fun acc p => replace_at p new_module acc) (map (cons i) ps) (K ms)
  = K (update_nth i
         (fun c => fold_left (fun acc p => replace_at p new_module acc) ps c) ms).
Proof.
  intros HK. revert ms; induction ps as [| p ps IH]; intros ms; cbn [map fold_left].
  - f_equal. clear. revert i; induction ms as [| a ms IH]; intros [| i]; simpl;
      try reflexivity. now rewrite <- IH.
  - rewrite HK, IH, update_nth_compose. reflexivity.
Qed.

Lemma quick_gelu_pass_children (K : list Module -> Module) (ms pre : list Module) :
  (forall i p l, replace_at (i :: p) ApproximateGeLU (K l)
                 = K (update_nth i (replace_at p ApproximateGeLU) l)) ->
  Forall (fun c => is_GeLU c = false -> quick_gelu_pass c = swap_activations c) ms ->
  fold_left (fun acc p => replace_at p ApproximateGeLU acc)
    (walk_children is_GeLU (walk is_GeLU) (length pre) ms) (K (pre ++ ms))
  = K (pre ++ map swap_activations ms).
Proof.
  intros HK Hms. revert pre; induction Hms as [| c ms Hc _ IH]; intros pre.
  - reflexivity.
  - cbn [walk_children map]. rewrite fold_left_app.
    match goal with
    | |- fold_left _ _ ?first = _ =>
        assert (Hfirst : first = K (pre ++ swap_activations c :: ms))
    end.
    { destruct (is_GeLU c) eqn:Hg.
      - destruct c; try discriminate Hg. cbn [fold_left].
        rewrite HK, update_nth_middle. reflexivity.
      - rewrite (replace_below_child K ApproximateGeLU (length pre)) by apply HK.
        rewrite update_nth_middle. fold (quick_gelu_pass c).
        now rewrite Hc. }
    rewrite Hfirst.
    replace (pre ++ swap_activations c :: ms)
      with ((pre ++ [swap_activations c]) ++ ms) by now rewrite <- app_assoc.
    replace (S (length pre)) with (length (pre ++ [swap_activations c]))
      by (rewrite length_app; simpl; lia).
    rewrite IH, <- app_assoc. reflexivity.
Qed.

(** The loop of the source computes the rewrite the specification
    describes, on every tree whose root is not itself an exact GeLU. *)
Lemma quick_gelu_pass_swaps (m : Module) :
  is_GeLU m = false -> quick_gelu_pass m = swap_activations m.
Proof.
  induction m as [ms IH | ms IH | ms IH | m Hleaf] using Module_tree_ind; intros Hroot.
  - exact (quick_gelu_pass_children Chain ms [] (fun _ _ _ => eq_refl) IH).
  - exact (quick_gelu_pass_children Residual ms [] (fun _ _ _ => eq_refl) IH).
  - exact (quick_gelu_pass_children Sum ms [] (fun _ _ _ => eq_refl) IH).
  - destruct m; try discriminate Hleaf; try discriminate Hroot; reflexivity.
Qed.

Lemma is_GeLU_swap_activations (m : Module) : is_GeLU (swap_activations m) = false.
Proof. destruct m; reflexivity. Qed.

Lemma walk_children_nil (i : nat) (ms : list Module) :
  Forall (fun c => is_GeLU c = false /\ walk is_GeLU c = []) ms ->
  walk_children is_GeLU (walk is_GeLU) i ms = [].
Proof.
  intros H; revert i; induction H as [| c ms (Hg & Hw) _ IH]; intros i; simpl.
  - reflexivity.
  - now rewrite Hg, Hw, IH.
Qed.

(** No exact GeLU is left after the rewrite. *)
Lemma walk_swap_activations (m : Module) : walk is_GeLU (swap_activations m) = [].
Proof.
  induction m as [ms IH | ms IH | ms IH | m Hleaf] using Module_tree_ind;
    try (cbn [swap_activations walk]; apply walk_children_nil;
         induction IH as [| c ms Hc _ IHms]; simpl; constructor;
         [split; [apply is_GeLU_swap_activations | exact Hc] | exact IHms]).
  destruct m; try discriminate Hleaf; reflexivity.
Qed.

(** The rewrite keeps every path of the tree. *)
Lemma lookup_swap_activations (p : Path) (m : Module) :
  lookup p (swap_activations m) = option_map swap_activations (lookup p m).
Proof.
  revert m; induction p as [| i p IH]; intros m; [reflexivity |].
  destruct m; try reflexivity; cbn [swap_activations lookup];
    rewrite nth_error_map; destruct (nth_error modules i); simpl; auto.
Qed.

Lemma swap_activations_leaf (m : Module) :
  children m = None -> is_GeLU m = false -> swap_activations m = m.
Proof. destruct m; intros Hc Hg; try discriminate; reflexivity. Qed.

(** C3: the encoder built with [use_quick_gelu = True] is the encoder
    built without it, with every exact GeLU replaced by an approximate
    one.  No exact GeLU is left, the two trees have the same paths, and
    every module that is not an activation sits at the same place with
    the same sizes and parameters, so it maps equal inputs to equal
    outputs in both. *)
Theorem quick_gelu_changes_only_activations (a : Args) (theta : Params) (exact : Module) :
  CLIPTextEncoder (with_use_quick_gelu a false) theta = Ok exact ->
  exists quick,
    CLIPTextEncoder (with_use_quick_gelu a true) theta = Ok quick /\
    quick = swap_activations exact /\
    walk is_GeLU quick = [] /\
    (forall p, lookup p quick = option_map swap_activations (lookup p exact)) /\
    (forall p m, lookup p exact = Some m -> is_GeLU m = true ->
                 lookup p quick = Some ApproximateGeLU) /\
    (forall p m, lookup p exact = Some m -> children m = None -> is_GeLU m = false ->
                 exists m', lookup p quick = Some m' /\ m' = m /\
                            forall x, forward m' x = forward m x).
Proof.
  intros H. apply CLIPTextEncoder_inv in H as (layers & Hl & ->).
  cbn [use_quick_gelu with_use_quick_gelu].
  exists (swap_activations
            (Chain (Tokenizer (tokenizer_of (with_use_quick_gelu a false))
                    :: encoder_body (with_use_quick_gelu a false) theta layers))).
  split; [| split; [| split; [| split; [| split]]]].
  - unfold CLIPTextEncoder.
    change (transformer_layers (with_use_quick_gelu a true) theta)
      with (transformer_layers (with_use_quick_gelu a false) theta).
    rewrite Hl. cbn [bind use_quick_gelu with_use_quick_gelu].
    rewrite quick_gelu_pass_swaps by reflexivity. reflexivity.
  - reflexivity.
  - apply walk_swap_activations.
  - intros p. apply lookup_swap_activations.
  - intros p m Hm Hg. rewrite lookup_swap_activations, Hm.
    destruct m; try discriminate Hg. reflexivity.
  - intros p m Hm Hc Hg. exists m. rewrite lookup_swap_activations, Hm.
    cbn [option_map]. rewrite swap_activations_leaf by assumption. auto.
Qed.

(** ** Shapes *)

Lemma has_shape_iff (t : Tensor) (b l d : nat) :
  has_shape t (b, l, d) <->
  shape t = (b, l, d) /\
  length (data t) = b /\
  Forall (fun row => length row = l /\ Forall (fun v => length v = d) row) (data t).
Proof.
  unfold has_shape, well_shaped. split.
  - intros [Hs Hw]. rewrite Hs in Hw. tauto.
  - intros (Hs & Hw). rewrite Hs. tauto.
Qed.

Lemma length_zip_with {A B C : Type} (f : A -> B -> C) (l1 : list A) (l2 : list B) :
  length (zip_with f l1 l2) = Nat.min (length l1) (length l2).
Proof.
  revert l2; induction l1 as [| a l1 IH]; intros [| b l2]; simpl; auto.
Qed.

Lemma Forall_zip_with {A B C : Type} (f : A -> B -> C)
  (P : A -> Prop) (Q : B -> Prop) (R : C -> Prop) (l1 : list A) (l2 : list B) :
  (forall a b, P a -> Q b -> R (f a b)) ->
  Forall P l1 -> Forall Q l2 -> Forall R (zip_with f l1 l2).
Proof.
  intros Hf H1; revert l2; induction H1 as [| a l1 Ha _ IH]; intros l2 H2.
  - constructor.
  - destruct H2 as [| b l2 Hb H2]; simpl; constructor; auto.
Qed.

Lemma bzip_same {A : Type} (f : A -> A -> A) (n : nat) (l1 l2 : list A) :
  bzip f n n l1 l2 = zip_with f l1 l2.
Proof. unfold bzip. now rewrite Nat.eqb_refl. Qed.

Lemma length_linear_vec (i o : nat) (p : LinearParams) (v : list scalar) :
  length (linear_vec i o p v) = o.
Proof. unfold linear_vec. now rewrite length_map, length_seq. Qed.

Lemma length_layer_norm_vec (eps : Q) (p : NormParams) (v : list scalar) :
  length (layer_norm_vec eps p v) = length v.
Proof.
  unfold layer_norm_vec. rewrite length_map, length_combine, length_seq.
  apply Nat.min_id.
Qed.

Lemma length_self_attention_seq (d h : nat) (c : bool) (q k v o : LinearParams)
  (xs : list (list scalar)) :
  length (self_attention_seq d h c q k v o xs) = length xs /\
  Forall (fun y => length y = d) (self_attention_seq d h c q k v o xs).
Proof.
  unfold self_attention_seq, scaled_dot_product_attention. cbv zeta. split.
  - now rewrite !length_map, length_seq.
  - apply Forall_map, Forall_forall. intros y _. apply length_linear_vec.
Qed.

Lemma add_rows_well_shaped (n d : nat) (r1 r2 : list (list scalar)) :
  length r1 = n /\ Forall (fun v => length v = d) r1 ->
  length r2 = n /\ Forall (fun v => length v = d) r2 ->
  length (bzip (bzip s_add d d) n n r1 r2) = n /\
  Forall (fun v => length v = d) (bzip (bzip s_add d d) n n r1 r2).
Proof.
  intros (Hl1 & Hv1) (Hl2 & Hv2). rewrite bzip_same. split.
  - rewrite length_zip_with, Hl1, Hl2. apply Nat.min_id.
  - eapply Forall_zip_with; [| exact Hv1 | exact Hv2].
    intros v1 v2 H1 H2. cbn beta.
    rewrite bzip_same, length_zip_with, H1, H2. apply Nat.min_id.
Qed.

Lemma tensor_add_has_shape (a b : Tensor) (s : nat * nat * nat) :
  has_shape a s -> has_shape b s ->
  exists t, tensor_add a b = Ok t /\ has_shape t s.
Proof.
  destruct s as [[nb nl] nd]. intros Ha Hb.
  apply has_shape_iff in Ha as (Hsa & Hla & Hra).
  apply has_shape_iff in Hb as (Hsb & Hlb & Hrb).
  unfold tensor_add. rewrite Hsa, Hsb, !broadcast_dim_same. cbn [bind].
  eexists. split; [reflexivity |].
  apply has_shape_iff. cbn [shape data]. split; [reflexivity |].
  rewrite bzip_same. split.
  - rewrite length_zip_with, Hla, Hlb. apply Nat.min_id.
  - eapply Forall_zip_with; [| exact Hra | exact Hrb].
    intros r1 r2 H1 H2. now apply add_rows_well_shaped.
Qed.

Lemma bzip_broadcast_r {A : Type} (f : A -> A -> A) (n : nat) (l1 : list A)
  (y : A) (ys : list A) :
  n <> 1 -> bzip f n 1 l1 (y :: ys) = map (fun x => f x y) l1.
Proof.
  intros Hn. unfold bzip. apply Nat.eqb_neq in Hn. now rewrite Hn.
Qed.

Lemma broadcast_dim_1_r (a : nat) : broadcast_dim a 1 = Ok a.
Proof.
  unfold broadcast_dim. destruct (a =? 1) eqn:Ha; [reflexivity |].
  reflexivity.
Qed.

(** A tensor of batch size 1 is added to every batch entry. *)
Lemma tensor_add_broadcast_batch (a c : Tensor) (b n d : nat) :
  has_shape a (b, n, d) -> has_shape c (1, n, d) ->
  exists t, tensor_add a c = Ok t /\ has_shape t (b, n, d).
Proof.
  intros Ha Hc.
  destruct (Nat.eq_dec b 1) as [-> | Hb1];
    [now apply tensor_add_has_shape |].
  apply has_shape_iff in Ha as (Hsa & Hla & Hra).
  apply has_shape_iff in Hc as (Hsc & Hlc & Hrc).
  unfold tensor_add.
  rewrite Hsa, Hsc, broadcast_dim_1_r, !broadcast_dim_same. cbn [bind].
  eexists. split; [reflexivity |].
  apply has_shape_iff. cbn [shape data]. split; [reflexivity |].
  destruct (data c) as [| y ys]; [discriminate Hlc |].
  inversion Hrc as [| ? ? Hy _]; subst.
  rewrite bzip_broadcast_r by exact Hb1.
  split; [now rewrite length_map |].
  apply Forall_map. eapply Forall_impl; [| exact Hra].
  intros row Hrow. now apply add_rows_well_shaped.
Qed.

Lemma map_positions_has_shape (d_in d_out : nat) (f : list scalar -> list scalar)
  (t : Tensor) (b l : nat) :
  (forall v, length v = d_in -> length (f v) = d_out) ->
  has_shape t (b, l, d_in) ->
  exists t', map_positions d_in d_out f (Hidden t) = Ok (Hidden t') /\
             has_shape t' (b, l, d_out).
Proof.
  intros Hf Ht. apply has_shape_iff in Ht as (Hs & Hb & Hr).
  unfold map_positions. rewrite Hs, Nat.eqb_refl.
  eexists. split; [reflexivity |].
  apply has_shape_iff. cbn [shape data]. split; [reflexivity |].
  split; [now rewrite length_map |].
  apply Forall_map. eapply Forall_impl; [| exact Hr].
  intros row (Hl & Hv). split; [now rewrite length_map |].
  apply Forall_map. eapply Forall_impl; [| exact Hv]. exact Hf.
Qed.

Lemma maps_shape_LayerNorm (d : nat) (eps : Q) (p : NormParams) (b l : nat) :
  maps_shape (LayerNorm d eps p) (b, l, d) (b, l, d).
Proof.
  intros t Ht. cbn [forward]. apply map_positions_has_shape; [| exact Ht].
  intros v Hv. now rewrite length_layer_norm_vec.
Qed.

Lemma maps_shape_Linear (i o : nat) (p : LinearParams) (b l : nat) :
  maps_shape (Linear i o p) (b, l, i) (b, l, o).
Proof.
  intros t Ht. cbn [forward]. apply map_positions_has_shape; [| exact Ht].
  intros v _. apply length_linear_vec.
Qed.

Lemma maps_shape_activation (act : Module) (s : nat * nat * nat) :
  is_activation act = true -> maps_shape act s s.
Proof.
  destruct s as [[b l] d]. intros Hact t Ht.
  apply has_shape_iff in Ht as (Hs & Hb & Hr).
  destruct act; try discriminate Hact; cbn [forward map_entries];
    (eexists; split; [reflexivity |]);
    apply has_shape_iff; cbn [shape data];
    (split; [exact Hs |]); (split; [now rewrite length_map |]);
    apply Forall_map; (eapply Forall_impl; [| exact Hr]);
    intros row (Hl & Hv); (split; [now rewrite length_map |]);
    apply Forall_map; (eapply Forall_impl; [| exact Hv]);
    intros v Hlen; now rewrite length_map.
Qed.

Lemma maps_shape_SelfAttention (d h : nat) (c : bool) (q k v o : LinearParams)
  (b l : nat) :
  h <> 0 -> d mod h = 0 ->
  maps_shape (SelfAttention d h c q k v o) (b, l, d) (b, l, d).
Proof.
  intros Hh Hd t Ht. apply has_shape_iff in Ht as (Hs & Hb & Hr).
  cbn [forward]. unfold self_attention_forward.
  apply Nat.eqb_neq in Hh. apply Nat.eqb_eq in Hd. rewrite Hh, Hd. cbn [orb negb].
  unfold map_positions_seq. rewrite Hs, Nat.eqb_refl.
  eexists. split; [reflexivity |].
  apply has_shape_iff. cbn [shape data]. split; [reflexivity |].
  split; [now rewrite length_map |].
  apply Forall_map. eapply Forall_impl; [| exact Hr].
  intros row (Hl & _).
  destruct (length_self_attention_seq d h c q k v o row) as (Hlen & Hvs).
  split; [congruence | exact Hvs].
Qed.

Lemma maps_shape_nil (s : nat * nat * nat) : maps_shape (Chain []) s s.
Proof. intros t Ht. exists t. split; [reflexivity | exact Ht]. Qed.

Lemma maps_shape_cons (m : Module) (ms : list Module) (s s1 s2 : nat * nat * nat) :
  maps_shape m s s1 -> maps_shape (Chain ms) s1 s2 -> maps_shape (Chain (m :: ms)) s s2.
Proof.
  intros Hm Hms t Ht.
  destruct (Hm t Ht) as (t1 & E1 & H1).
  destruct (Hms t1 H1) as (t2 & E2 & H2).
  exists t2. split; [| exact H2].
  cbn [forward chain_with] in *. rewrite E1. exact E2.
Qed.

Lemma maps_shape_Residual (ms : list Module) (s : nat * nat * nat) :
  maps_shape (Chain ms) s s -> maps_shape (Residual ms) s s.
Proof.
  intros Hms t Ht. destruct (Hms t Ht) as (t1 & E1 & H1).
  cbn [forward] in *. unfold residual_with. rewrite E1. cbn [bind value_add].
  destruct (tensor_add_has_shape t t1 s Ht H1) as (t2 & E2 & H2).
  rewrite E2. exists t2. split; [reflexivity | exact H2].
Qed.

Lemma maps_shape_stack (ms : list Module) (s : nat * nat * nat) :
  Forall (fun m => maps_shape m s s) ms -> maps_shape (Chain ms) s s.
Proof.
  induction 1 as [| m ms Hm _ IH].
  - apply maps_shape_nil.
  - eapply maps_shape_cons; eassumption.
Qed.

Lemma maps_shape_transformer_layer (a : Args) (m : Module) (b l : nat) :
  is_transformer_layer a m ->
  maps_shape m (b, l, embedding_dim a) (b, l, embedding_dim a).
Proof.
  intros (Hh & Hd & n1 & q & k & v & o & n2 & w1 & act & w2 & Hact & ->).
  eapply maps_shape_cons; [| eapply maps_shape_cons; [| apply maps_shape_nil]];
    apply maps_shape_Residual.
  - eapply maps_shape_cons; [apply maps_shape_LayerNorm |].
    eapply maps_shape_cons; [now apply maps_shape_SelfAttention |].
    apply maps_shape_nil.
  - eapply maps_shape_cons; [apply maps_shape_LayerNorm |].
    eapply maps_shape_cons; [| apply maps_shape_nil].
    eapply maps_shape_cons; [apply maps_shape_Linear |].
    eapply maps_shape_cons; [apply (maps_shape_activation act _ Hact) |].
    eapply maps_shape_cons; [apply maps_shape_Linear |].
    apply maps_shape_nil.
Qed.

(** ** The structure of a constructed encoder *)

Lemma is_transformer_layer_swap (a : Args) (m : Module) :
  is_transformer_layer a m -> is_transformer_layer a (swap_activations m).
Proof.
  intros (Hh & Hd & n1 & q & k & v & o & n2 & w1 & act & w2 & Hact & ->).
  split; [exact Hh |]. split; [exact Hd |].
  exists n1, q, k, v, o, n2, w1, (swap_activations act), w2.
  split; [| reflexivity]. destruct act; try discriminate Hact; reflexivity.
Qed.

Lemma transformer_layers_are_layers (a : Args) (theta : Params) (layers : list Module) :
  transformer_layers a theta = Ok layers ->
  length layers = num_layers a /\ Forall (is_transformer_layer a) layers.
Proof.
  intros H. apply map_result_Forall2 in H. split.
  - rewrite <- (Forall2_length H). apply length_seq.
  - induction H as [| i layer l l' Hl _ IH]; constructor; [| exact IH].
    apply TransformerLayer_inv in Hl as (Hh & Hd & ->).
    split; [exact Hh |]. split; [exact Hd |].
    unfold FeedForward. exists (norm_params (sub (sub (sub theta (3 + i)) 0) 0)).
    do 6 eexists. exists GeLU. eexists. split; reflexivity.
Qed.

Lemma CLIPTextEncoder_structure (a : Args) (theta : Params) (encoder : Module) :
  CLIPTextEncoder a theta = Ok encoder ->
  exists layers final_p,
    encoder =
      Chain (Tokenizer (tokenizer_of a)
             :: Converter true false
             :: Sum [ TokenEncoder (vocabulary_size a) (embedding_dim a)
                        (sub (sub theta 2) 0);
                      PositionalEncoder (max_sequence_length a) (embedding_dim a)
                        (sub (sub theta 2) 1) ]
             :: layers
             ++ [ LayerNorm (embedding_dim a) (layer_norm_eps a) final_p ]) /\
    length layers = num_layers a /\
    Forall (is_transformer_layer a) layers.
Proof.
  intros H. apply CLIPTextEncoder_inv in H as (layers & Hl & ->).
  apply transformer_layers_are_layers in Hl as (Hlen & Hform).
  destruct (use_quick_gelu a).
  - rewrite quick_gelu_pass_swaps by reflexivity.
    exists (map swap_activations layers). eexists. split; [| split].
    + unfold encoder_body, TokenEncoder, PositionalEncoder.
      cbn [swap_activations map app]. rewrite map_app. reflexivity.
    + now rewrite length_map.
    + apply Forall_map. eapply Forall_impl; [| exact Hform].
      apply is_transformer_layer_swap.
  - exists layers. eexists. split; [reflexivity |]. auto.
Qed.

(** C8: in a constructed encoder the chain ends with [num_layers]
    transformer layers and a LayerNorm, and each of them, as well as
    their whole stack, accepts every tensor of shape
    (batch, sequence_length, embedding_dim) and returns one of that
    shape. *)
Theorem encoder_stack_preserves_shape (a : Args) (theta : Params) (encoder : Module) :
  CLIPTextEncoder a theta = Ok encoder ->
  exists front layers final_p,
    let final_norm := LayerNorm (embedding_dim a) (layer_norm_eps a) final_p in
    encoder = Chain (front ++ layers ++ [final_norm]) /\
    length front = 3 /\
    length layers = num_layers a /\
    Forall (is_transformer_layer a) layers /\
    forall b l,
      let s := (b, l, embedding_dim a) in
      Forall (fun m => maps_shape m s s) (layers ++ [final_norm]) /\
      maps_shape (Chain (layers ++ [final_norm])) s s.
Proof.
  intros H.
  apply CLIPTextEncoder_structure in H as (layers & final_p & -> & Hlen & Hform).
  eexists [_; _; _], layers, final_p. cbv zeta.
  split; [reflexivity |]. split; [reflexivity |]. split; [exact Hlen |].
  split; [exact Hform |]. intros b l.
  assert (Hall : Forall (fun m => maps_shape m (b, l, embedding_dim a)
                                    (b, l, embedding_dim a))
                   (layers ++ [LayerNorm (embedding_dim a) (layer_norm_eps a) final_p])).
  { apply Forall_app. split.
    - eapply Forall_impl; [| exact Hform].
      intros m Hm. now apply maps_shape_transformer_layer.
    - constructor; [apply maps_shape_LayerNorm | constructor]. }
  split; [exact Hall | now apply maps_shape_stack].
Qed.

(** ** The empty prompt *)

Lemma length_encode (t : CLIPTokenizer) (text : string) :
  length (encode t text) = sequence_length t.
Proof.
  unfold encode. rewrite length_firstn, length_app, repeat_length. lia.
Qed.

Lemma token_encoder_has_shape (vocab d : nat) (w : nat -> nat -> scalar)
  (t : IntTensor) (b n : nat) :
  ishape t = (b, n) ->
  length (idata t) = b ->
  Forall (fun row => length row = n /\ Forall (fun id => id < vocab) row) (idata t) ->
  exists t', embedding_forward vocab d w (Tokens t) = Ok (Hidden t') /\
             has_shape t' (b, n, d).
Proof.
  intros Hs Hb Hr. unfold embedding_forward.
  assert (Hin : forallb (forallb (fun id => id <? vocab)) (idata t) = true).
  { apply forallb_forall. intros row Hrow.
    rewrite Forall_forall in Hr. destruct (Hr row Hrow) as (_ & Hids).
    apply forallb_forall. intros id Hid. apply Nat.ltb_lt.
    rewrite Forall_forall in Hids. now apply Hids. }
  rewrite Hin, Hs. cbn [fst snd].
  eexists. split; [reflexivity |].
  apply has_shape_iff. cbn [shape data]. split; [reflexivity |].
  split; [now rewrite length_map |].
  apply Forall_map. eapply Forall_impl; [| exact Hr].
  intros row (Hl & _). split; [now rewrite length_map |].
  apply Forall_map, Forall_forall. intros id _.
  unfold embedding_row. now rewrite length_map, length_seq.
Qed.

Lemma positional_encoder_has_shape (max d : nat) (theta : Params) (x : Value) (n : nat) :
  shape_1 x = Ok n ->
  n <= max ->
  exists t', forward (PositionalEncoder max d theta) x = Ok (Hidden t') /\
             has_shape t' (1, n, d).
Proof.
  intros Hx Hn. rewrite (positional_encoder_forward max d theta x n Hx).
  eexists. split; [reflexivity |].
  apply has_shape_iff. cbn [shape data].
  split; [now rewrite Nat.min_l |]. split; [reflexivity |].
  constructor; [| constructor]. split.
  - unfold embedding_table. rewrite length_firstn, length_map, length_seq. lia.
  - apply Forall_forall. intros row Hrow.
    assert (Hin : In row (embedding_table max d (theta [1]))).
    { rewrite <- (firstn_skipn n (embedding_table max d (theta [1]))).
      apply in_or_app. now left. }
    unfold embedding_table in Hin. apply in_map_iff in Hin as (i & <- & _).
    unfold embedding_row. now rewrite length_map, length_seq.
Qed.

(** A constructed encoder accepts every batch of texts, provided the
    tokenizer's sequence length fits the position table and its ids lie
    in the vocabulary, and returns one row of embeddings per token. *)
Lemma encoder_forward_total (a : Args) (theta : Params) (encoder : Module)
  (texts : list string) :
  CLIPTextEncoder a theta = Ok encoder ->
  sequence_length (tokenizer_of a) <= max_sequence_length a ->
  Forall (fun s => Forall (fun id => id < vocabulary_size a)
                          (encode (tokenizer_of a) s)) texts ->
  exists t,
    forward encoder (Text texts) = Ok (Hidden t) /\
    has_shape t (length texts, sequence_length (tokenizer_of a), embedding_dim a).
Proof.
  intros H Hseq Hvocab.
  apply CLIPTextEncoder_structure in H as (layers & final_p & -> & Hlen & Hform).
  cbn [forward chain_with tokenizer_forward bind sum_with sum_rest].
  unfold TokenEncoder. cbn [forward].
  destruct (token_encoder_has_shape (vocabulary_size a) (embedding_dim a)
              (sub (sub theta 2) 0 [])
              {| ishape := (length texts, sequence_length (tokenizer_of a));
                 idata := map (encode (tokenizer_of a)) texts |}
              (length texts) (sequence_length (tokenizer_of a)))
    as (t1 & E1 & H1); [reflexivity | apply length_map | |].
  { cbn [idata]. apply Forall_map. eapply Forall_impl; [| exact Hvocab].
    intros s Hs. split; [apply length_encode | exact Hs]. }
  rewrite E1. cbn [bind].
  destruct (positional_encoder_has_shape (max_sequence_length a) (embedding_dim a)
              (sub (sub theta 2) 1)
              (Tokens {| ishape := (length texts, sequence_length (tokenizer_of a));
                         idata := map (encode (tokenizer_of a)) texts |})
              (sequence_length (tokenizer_of a)))
    as (t2 & E2 & H2); [reflexivity | exact Hseq |].
  rewrite E2. cbn [bind value_add].
  destruct (tensor_add_broadcast_batch t1 t2 _ _ _ H1 H2) as (t3 & E3 & H3).
  rewrite E3. cbn [bind].
  assert (Hstack : maps_shape
                     (Chain (layers ++ [LayerNorm (embedding_dim a) (layer_norm_eps a)
                                          final_p]))
                     (length texts, sequence_length (tokenizer_of a), embedding_dim a)
                     (length texts, sequence_length (tokenizer_of a), embedding_dim a)).
  { apply maps_shape_stack, Forall_app. split.
    - eapply Forall_impl; [| exact Hform].
      intros m Hm. now apply maps_shape_transformer_layer.
    - constructor; [apply maps_shape_LayerNorm | constructor]. }
  destruct (Hstack t3 H3) as (t4 & E4 & H4).
  cbn [forward] in E4. rewrite E4. exists t4.
  split; [reflexivity | exact H4].
Qed.

(** C7: when the construction succeeds, the tokenizer pads to
    [max_sequence_length] and the ids of the empty text are in the
    vocabulary, the encoder maps the empty string to a tensor of shape
    (1, max_sequence_length, embedding_dim), and
    [unconditional_text_embedding] is that very result. *)
Theorem empty_prompt_embedding (a : Args) (theta : Params) (encoder : Module) :
  CLIPTextEncoder a theta = Ok encoder ->
  sequence_length (tokenizer_of a) = max_sequence_length a ->
  Forall (fun id => id < vocabulary_size a) (encode (tokenizer_of a) EmptyString) ->
  exists t,
    forward encoder (Text [EmptyString]) = Ok (Hidden t) /\
    has_shape t (1, max_sequence_length a, embedding_dim a) /\
    unconditional_text_embedding encoder = Ok (Hidden t).
Proof.
  intros H Hseq Hvocab.
  destruct (encoder_forward_total a theta encoder [EmptyString] H) as (t & Ht & Hs).
  - rewrite Hseq. apply Nat.le_refl.
  - constructor; [exact Hvocab | constructor].
  - exists t. cbn [length] in Hs. rewrite Hseq in Hs.
    split; [exact Ht |]. split; [exact Hs | exact Ht].
Qed.

(** ** Causality *)

Lemma firstn_zip_with {A B C : Type} (f : A -> B -> C) (k : nat)
  (l1 : list A) (l2 : list B) :
  firstn k (zip_with f l1 l2) = zip_with f (firstn k l1) (firstn k l2).
Proof.
  revert l1 l2; induction k as [| k IH]; intros [| a l1] [| b l2]; simpl;
    try reflexivity.
  now rewrite IH.
Qed.

Lemma firstn_eq_head {A : Type} (k : nat) (l l' : list A) :
  firstn (S k) l = firstn (S k) l' ->
  match l, l' with
  | [], [] => True
  | a :: _, a' :: _ => a = a'
  | _, _ => False
  end.
Proof. destruct l, l'; simpl; intros H; try discriminate; auto. now injection H. Qed.

Lemma firstn_eq_nth_error {A : Type} (k : nat) (l l' : list A) (j : nat) :
  firstn k l = firstn k l' -> j < k -> nth_error l j = nth_error l' j.
Proof.
  revert l l' j; induction k as [| k IH]; intros l l' j H Hj; [lia |].
  destruct l as [| a l], l' as [| a' l']; simpl in H; try discriminate;
    [reflexivity |].
  injection H as -> H. destruct j as [| j]; [reflexivity |].
  simpl. apply IH; [exact H | lia].
Qed.

Lemma Forall2_map_both {A B C D : Type} (f : A -> C) (g : B -> D)
  (R : C -> D -> Prop) (l : list A) (l' : list B) :
  Forall2 (fun a b => R (f a) (g b)) l l' -> Forall2 R (map f l) (map g l').
Proof. induction 1; simpl; constructor; auto. Qed.

Lemma Forall2_zip_with {A : Type} (f : A -> A -> A) (R : A -> A -> Prop)
  (l1 l1' l2 l2' : list A) :
  (forall a a' b b', R a a' -> R b b' -> R (f a b) (f a' b')) ->
  Forall2 R l1 l1' -> Forall2 R l2 l2' ->
  Forall2 R (zip_with f l1 l2) (zip_with f l1' l2').
Proof.
  intros Hf H1; revert l2 l2'; induction H1 as [| a a' l1 l1' Ha _ IH];
    intros l2 l2' H2.
  - constructor.
  - destruct H2 as [| b b' l2 l2' Hb H2]; simpl; constructor; auto.
Qed.

Lemma Forall2_same {A : Type} (R : A -> A -> Prop) (l : list A) :
  (forall a, R a a) -> Forall2 R l l.
Proof. intros HR; induction l; constructor; auto. Qed.

(** Broadcasting keeps agreement between batch entries. *)
Lemma Forall2_bzip {A : Type} (f : A -> A -> A) (R : A -> A -> Prop) (n1 n2 : nat)
  (l1 l1' l2 l2' : list A) :
  (forall a a' b b', R a a' -> R b b' -> R (f a b) (f a' b')) ->
  Forall2 R l1 l1' -> Forall2 R l2 l2' ->
  Forall2 R (bzip f n1 n2 l1 l2) (bzip f n1 n2 l1' l2').
Proof.
  intros Hf H1 H2. unfold bzip.
  destruct (n1 =? n2); [now apply Forall2_zip_with |].
  destruct (n1 =? 1).
  - destruct H1 as [| a a' l1 l1' Ha _]; [constructor |].
    apply Forall2_map_both. eapply Forall2_impl; [| exact H2].
    intros b b' Hb. now apply Hf.
  - destruct H2 as [| b b' l2 l2' Hb _]; [constructor |].
    apply Forall2_map_both. eapply Forall2_impl; [| exact H1].
    intros a a' Ha. now apply Hf.
Qed.

(** Broadcasting keeps agreement on the first [k] positions. *)
Lemma firstn_bzip {A : Type} (f : A -> A -> A) (n1 n2 k : nat) (r1 r1' r2 r2' : list A) :
  firstn k r1 = firstn k r1' ->
  firstn k r2 = firstn k r2' ->
  firstn k (bzip f n1 n2 r1 r2) = firstn k (bzip f n1 n2 r1' r2').
Proof.
  intros H1 H2. destruct k as [| k]; [reflexivity |].
  unfold bzip. destruct (n1 =? n2).
  - now rewrite !firstn_zip_with, H1, H2.
  - destruct (n1 =? 1).
    + apply firstn_eq_head in H1 as Hh.
      destruct r1 as [| a r1], r1' as [| a' r1']; try contradiction;
        [reflexivity |].
      subst a'. now rewrite !firstn_map, H2.
    + apply firstn_eq_head in H2 as Hh.
      destruct r2 as [| b r2], r2' as [| b' r2']; try contradiction;
        [reflexivity |].
      subst b'. now rewrite !firstn_map, H1.
Qed.

Lemma agree_upto_same (k : nat) (x : Value) :
  (forall batch, x <> Text batch) -> agree_upto k x x.
Proof.
  destruct x as [batch | t | t]; intros Hx; simpl.
  - now elim (Hx batch).
  - split; [reflexivity | now apply Forall2_same].
  - split; [reflexivity | now apply Forall2_same].
Qed.

Lemma value_add_agree (k : nat) (x x' y y' z z' : Value) :
  agree_upto k x x' -> agree_upto k y y' ->
  value_add x y = Ok z -> value_add x' y' = Ok z' -> agree_upto k z z'.
Proof.
  destruct x as [| | a], x' as [| | a']; try contradiction;
    destruct y as [| | b], y' as [| | b']; try contradiction;
    try discriminate.
  cbn [agree_upto value_add]. intros (Hsa & Ha) (Hsb & Hb).
  unfold tensor_add. rewrite <- Hsa, <- Hsb.
  destruct (shape a) as [[b1 l1] d1], (shape b) as [[b2 l2] d2].
  destruct (broadcast_dim b1 b2) as [nb |]; [| discriminate].
  destruct (broadcast_dim l1 l2) as [nl |]; [| discriminate].
  destruct (broadcast_dim d1 d2) as [nd |]; [| discriminate].
  cbn [bind]. intros Hz Hz'. injection Hz as <-. injection Hz' as <-.
  cbn [agree_upto shape data]. split; [reflexivity |].
  apply Forall2_bzip; [| exact Ha | exact Hb].
  intros r1 r1' r2 r2'. apply firstn_bzip.
Qed.

Lemma map_positions_agree (d_in d_out : nat) (f : list scalar -> list scalar) :
  respects_prefixes (map_positions d_in d_out f).
Proof.
  intros k x y x' y' Hxy.
  destruct x as [| | a], y as [| | b]; try contradiction; try discriminate.
  destruct Hxy as (Hs & Hd). unfold map_positions. rewrite <- Hs.
  destruct (shape a) as [[nb nl] nd]. destruct (nd =? d_in); [| discriminate].
  intros Hx Hy. injection Hx as <-. injection Hy as <-.
  split; [reflexivity |]. cbn [data].
  apply Forall2_map_both. eapply Forall2_impl; [| exact Hd].
  intros r r' Hr. cbn beta. now rewrite !firstn_map, Hr.
Qed.

Lemma map_entries_agree (f : scalar -> scalar) : respects_prefixes (map_entries f).
Proof.
  intros k x y x' y' Hxy.
  destruct x as [| | a], y as [| | b]; try contradiction; try discriminate.
  destruct Hxy as (Hs & Hd). unfold map_entries.
  intros Hx Hy. injection Hx as <-. injection Hy as <-.
  split; [exact Hs |]. cbn [data].
  apply Forall2_map_both. eapply Forall2_impl; [| exact Hd].
  intros r r' Hr. cbn beta. now rewrite !firstn_map, Hr.
Qed.

Lemma map_positions_seq_agree (d_in : nat) (f : list (list scalar) -> list (list scalar)) :
  (forall k xs, firstn k (f xs) = f (firstn k xs)) ->
  respects_prefixes (fun x => map_positions_seq x d_in f).
Proof.
  intros Hf k x y x' y' Hxy.
  destruct x as [| | a], y as [| | b]; try contradiction; try discriminate.
  destruct Hxy as (Hs & Hd). unfold map_positions_seq. rewrite <- Hs.
  destruct (shape a) as [[nb nl] nd]. destruct (nd =? d_in); [| discriminate].
  intros Hx Hy. injection Hx as <-. injection Hy as <-.
  split; [reflexivity |]. cbn [data].
  apply Forall2_map_both. eapply Forall2_impl; [| exact Hd].
  intros r r' Hr. cbn beta. now rewrite !Hf, Hr.
Qed.

Lemma embedding_agree (n d : nat) (w : nat -> nat -> scalar) :
  respects_prefixes (embedding_forward n d w).
Proof.
  intros k x y x' y' Hxy.
  destruct x as [| a |], y as [| b |]; try contradiction; try discriminate.
  destruct Hxy as (Hs & Hd). unfold embedding_forward. rewrite <- Hs.
  destruct (forallb _ (idata a)); [| discriminate].
  destruct (forallb _ (idata b)); [| discriminate].
  intros Hx Hy. injection Hx as <-. injection Hy as <-.
  split; [reflexivity |]. cbn [data].
  apply Forall2_map_both. eapply Forall2_impl; [| exact Hd].
  intros r r' Hr. cbn beta. now rewrite !firstn_map, Hr.
Qed.

Lemma firstn_seq_min (k start len : nat) :
  firstn k (seq start len) = seq start (Nat.min k len).
Proof.
  revert start len; induction k as [| k IH]; intros start [| len]; simpl;
    try reflexivity.
  now rewrite IH.
Qed.

(** Under the causal mask the attention of a prefix is the prefix of the
    attention: no output position reads a later input position. *)
Lemma causal_attention_prefix (nh d k : nat) (qs ks vs : list (list scalar)) :
  firstn k (scaled_dot_product_attention nh d true qs ks vs)
  = scaled_dot_product_attention nh d true (firstn k qs) (firstn k ks) (firstn k vs).
Proof.
  unfold scaled_dot_product_attention.
  rewrite firstn_map, firstn_seq_min, length_firstn.
  apply map_ext_in. intros i Hi. apply in_seq in Hi.
  assert (Hik : i < k) by lia.
  unfold sdpa_at. f_equal. apply map_ext. intros h.
  unfold visible. rewrite nth_firstn.
  apply Nat.ltb_lt in Hik as Hb. rewrite Hb.
  rewrite !firstn_firstn. now replace (Nat.min (S i) k) with (S i) by lia.
Qed.

Lemma causal_self_attention_prefix (d h : nat) (q kp v o : LinearParams) (k : nat)
  (xs : list (list scalar)) :
  firstn k (self_attention_seq d h true q kp v o xs)
  = self_attention_seq d h true q kp v o (firstn k xs).
Proof.
  unfold self_attention_seq. cbv zeta.
  now rewrite firstn_map, causal_attention_prefix, !firstn_map.
Qed.

Lemma all_with_Forall {A : Type} (P : A -> Prop) (l : list A) :
  all_with P l <-> Forall P l.
Proof.
  induction l as [| a l IH]; simpl; split; intros H.
  - constructor.
  - exact I.
  - destruct H as (Ha & Hl). constructor; [exact Ha | now apply IH].
  - inversion H; subst. split; [assumption | now apply IH].
Qed.

Lemma chain_with_agree (ms : list Module) :
  Forall (fun m => respects_prefixes (forward m)) ms ->
  respects_prefixes (chain_with forward ms).
Proof.
  induction 1 as [| m ms Hm _ IH]; intros k x y x' y' Hxy; cbn [chain_with].
  - intros Hx Hy. injection Hx as <-. injection Hy as <-. exact Hxy.
  - destruct (forward m x) as [x1 |] eqn:Ex; [| discriminate].
    destruct (forward m y) as [y1 |] eqn:Ey; [| discriminate].
    cbn [bind]. apply IH. exact (Hm k x y x1 y1 Hxy Ex Ey).
Qed.

Lemma sum_rest_agree (ms : list Module) (k : nat) (x y accx accy x' y' : Value) :
  Forall (fun m => respects_prefixes (forward m)) ms ->
  agree_upto k x y -> agree_upto k accx accy ->
  sum_rest forward ms x accx = Ok x' -> sum_rest forward ms y accy = Ok y' ->
  agree_upto k x' y'.
Proof.
  intros Hms Hxy; revert accx accy; induction Hms as [| m ms Hm _ IH];
    intros accx accy Hacc; cbn [sum_rest].
  - intros Hx Hy. injection Hx as <-. injection Hy as <-. exact Hacc.
  - destruct (forward m x) as [x1 |] eqn:Ex; [| discriminate].
    destruct (forward m y) as [y1 |] eqn:Ey; [| discriminate].
    cbn [bind].
    destruct (value_add accx x1) as [ax |] eqn:Eax; [| discriminate].
    destruct (value_add accy y1) as [ay |] eqn:Eay; [| discriminate].
    cbn [bind]. apply IH.
    exact (value_add_agree k accx accy x1 y1 ax ay Hacc (Hm k x y x1 y1 Hxy Ex Ey)
             Eax Eay).
Qed.

(** In a causal tree the first [k] output positions are determined by the
    first [k] input positions. *)
Lemma forward_agree (m : Module) : causal m -> respects_prefixes (forward m).
Proof.
  induction m as [ms IH | ms IH | ms IH | m Hleaf] using Module_tree_ind;
    intros Hc.
  - cbn [causal] in Hc. apply all_with_Forall in Hc.
    cbn [forward]. apply chain_with_agree.
    rewrite Forall_forall in *. auto.
  - cbn [causal] in Hc. apply all_with_Forall in Hc.
    assert (Hms : Forall (fun m => respects_prefixes (forward m)) ms)
      by (rewrite Forall_forall in *; auto).
    intros k x y x' y' Hxy. cbn [forward]. unfold residual_with.
    destruct (chain_with forward ms x) as [x1 |] eqn:Ex; [| discriminate].
    destruct (chain_with forward ms y) as [y1 |] eqn:Ey; [| discriminate].
    cbn [bind]. apply value_add_agree; [exact Hxy |].
    exact (chain_with_agree ms Hms k x y x1 y1 Hxy Ex Ey).
  - cbn [causal] in Hc. apply all_with_Forall in Hc.
    assert (Hms : Forall (fun m => respects_prefixes (forward m)) ms)
      by (rewrite Forall_forall in *; auto).
    intros k x y x' y' Hxy. cbn [forward]. unfold sum_with.
    destruct Hms as [| m ms Hm Hms]; [discriminate |].
    destruct (forward m x) as [x1 |] eqn:Ex; [| discriminate].
    destruct (forward m y) as [y1 |] eqn:Ey; [| discriminate].
    cbn [bind]. apply sum_rest_agree; [exact Hms | exact Hxy |].
    exact (Hm k x y x1 y1 Hxy Ex Ey).
  - destruct m; try discriminate Hleaf; cbn [forward].
    + exact Hc.
    + apply embedding_agree.
    + apply map_positions_agree.
    + cbn [causal] in Hc. subst.
      intros kk x y x' y' Hxy. unfold self_attention_forward.
      destruct (_ || _); [discriminate |].
      match goal with
      | |- map_positions_seq _ ?d ?f = _ -> _ =>
          apply (map_positions_seq_agree d f); [| exact Hxy]
      end.
      intros k0 xs. apply causal_self_attention_prefix.
    + apply map_positions_agree.
    + apply map_entries_agree.
    + apply map_entries_agree.
    + intros k x y x' y' Hxy Hx Hy. injection Hx as <-. injection Hy as <-. exact Hxy.
    + intros k x y x' y' Hxy.
      destruct x, y; try contradiction; discriminate.
Qed.

Lemma get_position_ids_respects (max : nat) : respects_prefixes (get_position_ids max).
Proof.
  intros k x y x' y' Hxy.
  assert (Hshape : shape_1 x = shape_1 y).
  { destruct x as [| a | a], y as [| b | b]; try contradiction;
      destruct Hxy as (Hs & _); cbn [shape_1]; now rewrite Hs. }
  unfold get_position_ids. rewrite <- Hshape.
  destruct (shape_1 x) as [n |]; [| discriminate].
  cbn [bind]. intros Hx Hy. injection Hx as <-. injection Hy as <-.
  apply agree_upto_same. discriminate.
Qed.

Lemma is_transformer_layer_causal (a : Args) (m : Module) :
  is_transformer_layer a m -> causal m.
Proof.
  intros (_ & _ & n1 & q & k & v & o & n2 & w1 & act & w2 & Hact & ->).
  destruct act; try discriminate Hact; cbn; tauto.
Qed.

Lemma encoder_body_causal (a : Args) (theta1 theta2 : Params) (layers : list Module)
  (final_p : NormParams) :
  Forall (is_transformer_layer a) layers ->
  causal (Chain (Converter true false
                 :: Sum [ TokenEncoder (vocabulary_size a) (embedding_dim a) theta1;
                          PositionalEncoder (max_sequence_length a) (embedding_dim a)
                            theta2 ]
                 :: layers
                 ++ [ LayerNorm (embedding_dim a) (layer_norm_eps a) final_p ])).
Proof.
  intros Hform. cbn [causal all_with]. split; [exact I |]. split.
  - unfold TokenEncoder, PositionalEncoder. cbn [causal all_with].
    repeat split. apply get_position_ids_respects.
  - apply all_with_Forall, Forall_app. split.
    + eapply Forall_impl; [| exact Hform]. apply is_transformer_layer_causal.
    + constructor; [exact I | constructor].
Qed.

(** C2: two batches of texts whose token sequences agree on positions
    [0..i] get output embeddings that agree on positions [0..i], entry by
    entry; whatever the tokens at later positions are, they do not reach
    position [i] through the stacked causal attention layers. *)
Theorem no_future_leakage (a : Args) (theta : Params) (encoder : Module)
  (texts texts' : list string) (i : nat) (t t' : Tensor) :
  CLIPTextEncoder a theta = Ok encoder ->
  Forall2 (fun s s' => firstn (S i) (encode (tokenizer_of a) s)
                       = firstn (S i) (encode (tokenizer_of a) s'))
          texts texts' ->
  forward encoder (Text texts) = Ok (Hidden t) ->
  forward encoder (Text texts') = Ok (Hidden t') ->
  shape t = shape t' /\
  Forall2 (fun row row' => forall j, j <= i -> nth_error row j = nth_error row' j)
          (data t) (data t').
Proof.
  intros H Htok.
  apply CLIPTextEncoder_structure in H as (layers & final_p & -> & _ & Hform).
  cbn [forward chain_with tokenizer_forward bind].
  intros Ht Ht'.
  pose proof (encoder_body_causal a (sub (sub theta 2) 0) (sub (sub theta 2) 1)
                layers final_p Hform) as Hc.
  apply forward_agree in Hc.
  assert (Hin : agree_upto (S i)
                  (Tokens {| ishape := (length texts, sequence_length (tokenizer_of a));
                             idata := map (encode (tokenizer_of a)) texts |})
                  (Tokens {| ishape := (length texts', sequence_length (tokenizer_of a));
                             idata := map (encode (tokenizer_of a)) texts' |})).
  { split; cbn [ishape idata].
    - now rewrite (Forall2_length Htok).
    - now apply Forall2_map_both. }
  destruct (Hc (S i) _ _ _ _ Hin Ht Ht') as (Hs & Hd).
  split; [exact Hs |].
  eapply Forall2_impl; [| exact Hd].
  intros row row' Hrow j Hj. apply (firstn_eq_nth_error (S i)); [exact Hrow | lia].
Qed.

(** * Further properties of the source *)

(** ** Running the encoder on batches *)

(** X1: a constructed encoder whose tokenizer does not pad beyond the
    position table returns, for every batch of texts with ids in the
    vocabulary, a well-shaped tensor with one entry per text, one row per
    token of the tokenizer's sequence length (not of
    [max_sequence_length]) and [embedding_dim] columns. *)
Theorem encoder_accepts_every_batch (a : Args) (theta : Params) (encoder : Module)
  (texts : list string) :
  CLIPTextEncoder a theta = Ok encoder ->
  sequence_length (tokenizer_of a) <= max_sequence_length a ->
  Forall (fun s => Forall (fun id => id < vocabulary_size a)
                          (encode (tokenizer_of a) s)) texts ->
  exists t,
    forward encoder (Text texts) = Ok (Hidden t) /\
    shape t = (length texts, sequence_length (tokenizer_of a), embedding_dim a) /\
    length (data t) = length texts /\
    Forall (fun entry =>
              length entry = sequence_length (tokenizer_of a) /\
              Forall (fun v => length v = embedding_dim a) entry) (data t).
Proof.
  intros H Hseq Hvocab.
  destruct (encoder_forward_total a theta encoder texts H Hseq Hvocab) as (t & Ht & Hs).
  exists t. split; [exact Ht |]. now apply has_shape_iff.
Qed.

Lemma forallb_exists_false {A : Type} (p : A -> bool) (l : list A) :
  Exists (fun x => p x = false) l -> forallb p l = false.
Proof.
  induction 1 as [x l Hx | x l _ IH]; simpl.
  - now rewrite Hx.
  - rewrite IH. apply andb_false_r.
Qed.

(** X2: a single token id outside [0, vocabulary_size) anywhere in the
    batch makes the whole run fail with the lookup error of the token
    table, before any position or layer is looked at. *)
Theorem out_of_vocabulary_token_fails (a : Args) (theta : Params) (encoder : Module)
  (texts : list string) :
  CLIPTextEncoder a theta = Ok encoder ->
  Exists (fun s => Exists (fun id => vocabulary_size a <= id)
                          (encode (tokenizer_of a) s)) texts ->
  forward encoder (Text texts) = Err IndexError.
Proof.
  intros H Hbad.
  apply CLIPTextEncoder_structure in H as (layers & final_p & -> & _ & _).
  cbn [forward chain_with tokenizer_forward bind sum_with].
  unfold TokenEncoder. cbn [forward embedding_forward idata].
  rewrite forallb_exists_false; [reflexivity |].
  apply Exists_exists in Hbad as (s & Hs & Hids).
  apply Exists_exists. exists (encode (tokenizer_of a) s). split.
  - now apply in_map.
  - apply forallb_exists_false.
    apply Exists_exists in Hids as (id & Hid & Hge).
    apply Exists_exists. exists id. split; [exact Hid |].
    apply Nat.ltb_ge. exact Hge.
Qed.

(** X3: a tokenizer handed in that pads beyond the position table is
    accepted by the constructor, and then no text can be encoded: every
    run fails, with the lookup error of the token table or with the shape
    error of the sum (the position table has at least two rows). *)
Theorem longer_tokenizer_never_runs (a : Args) (theta : Params) (encoder : Module)
  (texts : list string) :
  CLIPTextEncoder a theta = Ok encoder ->
  2 <= max_sequence_length a ->
  max_sequence_length a < sequence_length (tokenizer_of a) ->
  forward encoder (Text texts) = Err IndexError \/
  forward encoder (Text texts) = Err ShapeError.
Proof.
  intros H Hmax Hlong.
  apply CLIPTextEncoder_structure in H as (layers & final_p & -> & _ & _).
  cbn [forward chain_with tokenizer_forward bind sum_with sum_rest].
  unfold TokenEncoder. cbn [forward embedding_forward idata ishape fst snd].
  destruct (forallb _ _); [| now left]. right.
  cbn [bind].
  rewrite (positional_encoder_forward (max_sequence_length a) (embedding_dim a)
             (sub (sub theta 2) 1) _ (sequence_length (tokenizer_of a)))
    by reflexivity.
  cbn [bind value_add tensor_add shape].
  rewrite broadcast_dim_1_r. cbn [bind].
  rewrite Nat.min_r by lia.
  rewrite broadcast_dim_mismatch by lia. reflexivity.
Qed.


(** ** The embedding tables *)



Lemma zip_with_ext {A B C : Type} (f g : A -> B -> C) (l1 : list A) (l2 : list B) :
  (forall x y, f x y = g x y) -> zip_with f l1 l2 = zip_with g l1 l2.
Proof.
  intros Hfg. revert l2; induction l1 as [| x l1 IH]; intros [| y l2]; simpl;
    try reflexivity.
  now rewrite Hfg, IH.
Qed.

(** X6: the sum of the two encoders adds, for every batch entry, the
    table row of each token to the table row of its position: all
    entries get the same position rows [0..n-1], added elementwise. *)
Theorem embedding_fusion (vocabulary max embedding : nat) (theta1 theta2 : Params)
  (t : IntTensor) (b n : nat) :
  ishape t = (b, n) ->
  length (idata t) = b ->
  Forall (Forall (fun id => id < vocabulary)) (idata t) ->
  n <= max ->
  forward (Sum [ TokenEncoder vocabulary embedding theta1;
                 PositionalEncoder max embedding theta2 ]) (Tokens t)
  = Ok (Hidden
          {| shape := (b, n, embedding);
             data := map (fun ids =>
                            zip_with vadd
                              (map (embedding_row embedding (theta1 [])) ids)
                              (map (embedding_row embedding (theta2 [1])) (seq 0 n)))
                         (idata t) |}).
Proof.
  intros Hs Hb Hids Hn.
  cbn [forward sum_with sum_rest].
  unfold TokenEncoder at 1. cbn [forward embedding_forward].
  assert (Hin : forallb (forallb (fun id => id <? vocabulary)) (idata t) = true).
  { apply forallb_forall. intros row Hrow.
    rewrite Forall_forall in Hids. specialize (Hids row Hrow).
    apply forallb_forall. intros id Hid. apply Nat.ltb_lt.
    rewrite Forall_forall in Hids. now apply Hids. }
  rewrite Hin. cbn [bind].
  rewrite (positional_encoder_forward max embedding theta2 (Tokens t) n)
    by (cbn; now rewrite Hs).
  cbn [bind value_add tensor_add shape data]. rewrite Hs. cbn [fst snd].
  rewrite Nat.min_l by exact Hn.
  rewrite broadcast_dim_1_r, !broadcast_dim_same. cbn [bind].
  do 3 f_equal.
  assert (Hrow : forall x,
             bzip (bzip s_add embedding embedding) n n x
               (firstn n (embedding_table max embedding (theta2 [1])))
             = zip_with vadd x (map (embedding_row embedding (theta2 [1])) (seq 0 n))).
  { intros x. rewrite bzip_same.
    replace (firstn n (embedding_table max embedding (theta2 [1])))
      with (map (embedding_row embedding (theta2 [1])) (seq 0 n)).
    - apply zip_with_ext. intros u v. apply bzip_same.
    - unfold embedding_table. rewrite firstn_map, firstn_seq_min.
      now rewrite Nat.min_l by exact Hn. }
  destruct (Nat.eq_dec b 1) as [-> | Hb1].
  - rewrite bzip_same.
    destruct (idata t) as [| ids [| ? ?]]; try discriminate Hb.
    cbn [map zip_with]. now rewrite Hrow.
  - rewrite bzip_broadcast_r by exact Hb1.
    rewrite map_map. apply map_ext. intros x. apply Hrow.
Qed.

(** ** The feed-forward block *)

(** X7: [FeedForward] maps every position on its own, through
    [embedding_dim -> feedforward_dim -> embedding_dim]: the vector at a
    position of the output is a function of the vector at that position
    of the input alone, and the only input it refuses is one whose last
    dimension is not [embedding_dim]. *)
Theorem feed_forward_is_positionwise (embedding feedforward : nat) (theta : Params)
  (t : Tensor) :
  forward (FeedForward embedding feedforward theta) (Hidden t)
  = if snd (shape t) =? embedding
    then Ok (Hidden
               {| shape := (fst (fst (shape t)), snd (fst (shape t)), embedding);
                  data := map (map (feed_forward_vec embedding feedforward theta))
                              (data t) |})
    else Err ShapeError.
Proof.
  destruct t as [[[b l] d] dat]. unfold FeedForward.
  cbn [forward chain_with map_positions shape data fst snd].
  destruct (d =? embedding); [| reflexivity].
  cbn [bind map_entries map_positions shape data].
  rewrite Nat.eqb_refl. cbn [bind]. do 3 f_equal.
  rewrite !map_map. apply map_ext. intros row.
  rewrite !map_map. reflexivity.
Qed.

(** ** Entries of a batch *)

Lemma nth_error_zip_with {A B C : Type} (f : A -> B -> C) (l1 : list A) (l2 : list B)
  (k : nat) (a : A) (b : B) :
  nth_error l1 k = Some a -> nth_error l2 k = Some b ->
  nth_error (zip_with f l1 l2) k = Some (f a b).
Proof.
  revert l1 l2; induction k as [| k IH]; intros [| x l1] [| y l2]; simpl;
    try discriminate.
  - intros H1 H2. injection H1 as ->. injection H2 as ->. reflexivity.
  - apply IH.
Qed.

Lemma value_add_batch_entry (b k : nat) (x y x' y' z : Value) :
  batch_entry b k x x' -> batch_entry b k y y' ->
  value_add x y = Ok z ->
  exists z', value_add x' y' = Ok z' /\ batch_entry b k z z'.
Proof.
  destruct x as [| | s], x' as [| | s']; try contradiction;
    destruct y as [| | u], y' as [| | u']; try contradiction;
    try (intros; discriminate).
  intros (l1 & d1 & r1 & Hs & Hs' & Hn1 & Hd1) (l2 & d2 & r2 & Hu & Hu' & Hn2 & Hd2).
  cbn [value_add]. unfold tensor_add. rewrite Hs, Hu, Hs', Hu', !broadcast_dim_same.
  cbn [bind].
  destruct (broadcast_dim l1 l2) as [nl |]; [| discriminate].
  destruct (broadcast_dim d1 d2) as [nd |]; [| discriminate].
  cbn [bind]. intros Hz. injection Hz as <-.
  eexists. split; [reflexivity |].
  exists nl, nd, (bzip (bzip s_add d1 d2) l1 l2 r1 r2). cbn [shape data].
  repeat split.
  - rewrite bzip_same. now apply nth_error_zip_with.
  - now rewrite Hd1, Hd2, bzip_same.
Qed.

Lemma map_positions_batch_entry (d_in d_out : nat) (f : list scalar -> list scalar) :
  keeps_batch_entries (map_positions d_in d_out f).
Proof.
  intros b k x y x' Hxy.
  destruct x as [| | s], y as [| | u]; try contradiction; try discriminate.
  destruct Hxy as (l & d & row & Hs & Ht & Hn & Hd).
  unfold map_positions. rewrite Hs, Ht.
  destruct (d =? d_in); [| discriminate].
  intros Hx. injection Hx as <-. eexists. split; [reflexivity |].
  exists l, d_out, (map f row). cbn [shape data]. repeat split.
  - now apply map_nth_error.
  - now rewrite Hd.
Qed.

Lemma map_positions_seq_batch_entry (d_in : nat)
  (f : list (list scalar) -> list (list scalar)) :
  keeps_batch_entries (fun x => map_positions_seq x d_in f).
Proof.
  intros b k x y x' Hxy.
  destruct x as [| | s], y as [| | u]; try contradiction; try discriminate.
  destruct Hxy as (l & d & row & Hs & Ht & Hn & Hd).
  unfold map_positions_seq. rewrite Hs, Ht.
  destruct (d =? d_in); [| discriminate].
  intros Hx. injection Hx as <-. eexists. split; [reflexivity |].
  exists l, d, (f row). cbn [shape data]. repeat split.
  - now apply map_nth_error.
  - now rewrite Hd.
Qed.

Lemma map_entries_batch_entry (f : scalar -> scalar) :
  keeps_batch_entries (map_entries f).
Proof.
  intros b k x y x' Hxy.
  destruct x as [| | s], y as [| | u]; try contradiction; try discriminate.
  destruct Hxy as (l & d & row & Hs & Ht & Hn & Hd).
  unfold map_entries. intros Hx. injection Hx as <-.
  eexists. split; [reflexivity |].
  exists l, d, (map (map f) row). cbn [shape data]. repeat split; try assumption.
  - now apply map_nth_error.
  - now rewrite Hd.
Qed.

Lemma embedding_batch_entry (n d : nat) (w : nat -> nat -> scalar) :
  keeps_batch_entries (embedding_forward n d w).
Proof.
  intros b k x y x' Hxy.
  destruct x as [| s |], y as [| u |]; try contradiction; try discriminate.
  destruct Hxy as (l & row & Hs & Ht & Hn & Hd).
  unfold embedding_forward. rewrite Hs, Ht, Hd.
  destruct (forallb _ (idata s)) eqn:Hall; [| discriminate].
  intros Hx. injection Hx as <-.
  assert (Hrow : forallb (fun id => id <? n) row = true).
  { rewrite forallb_forall in Hall. apply Hall. eapply nth_error_In; eassumption. }
  cbn [forallb]. rewrite Hrow. cbn [andb fst snd].
  eexists. split; [reflexivity |].
  exists l, d, (map (embedding_row d w) row). cbn [shape data map].
  repeat split. now apply map_nth_error.
Qed.

Lemma chain_with_batch_entry (ms : list Module) :
  Forall (fun m => keeps_batch_entries (forward m)) ms ->
  keeps_batch_entries (chain_with forward ms).
Proof.
  induction 1 as [| m ms Hm _ IH]; intros b k x y x' Hxy; cbn [chain_with].
  - intros Hx. injection Hx as <-. exists y. auto.
  - destruct (forward m x) as [x1 |] eqn:Ex; [| discriminate].
    cbn [bind]. intros Hx.
    destruct (Hm b k x y x1 Hxy Ex) as (y1 & Ey & H1).
    rewrite Ey. cbn [bind]. exact (IH b k x1 y1 x' H1 Hx).
Qed.

(** Chains, residuals and leaves never mix the entries of a batch. *)
Lemma forward_batch_entry (m : Module) :
  batchwise m -> keeps_batch_entries (forward m).
Proof.
  induction m as [ms IH | ms IH | ms IH | m Hleaf] using Module_tree_ind;
    intros Hb.
  - cbn [batchwise] in Hb. apply all_with_Forall in Hb.
    cbn [forward]. apply chain_with_batch_entry.
    rewrite Forall_forall in *. auto.
  - cbn [batchwise] in Hb. apply all_with_Forall in Hb.
    assert (Hms : Forall (fun m => keeps_batch_entries (forward m)) ms)
      by (rewrite Forall_forall in *; auto).
    intros b k x y x' Hxy. cbn [forward]. unfold residual_with.
    destruct (chain_with forward ms x) as [x1 |] eqn:Ex; [| discriminate].
    cbn [bind]. intros Hx.
    destruct (chain_with_batch_entry ms Hms b k x y x1 Hxy Ex) as (y1 & Ey & H1).
    rewrite Ey. cbn [bind].
    exact (value_add_batch_entry b k x x1 y y1 x' Hxy H1 Hx).
  - contradiction.
  - destruct m; try discriminate Hleaf; cbn [forward]; try contradiction.
    + apply embedding_batch_entry.
    + apply map_positions_batch_entry.
    + unfold self_attention_forward.
      intros b kk x y x' Hxy. destruct (_ || _); [discriminate |].
      revert b kk x y x' Hxy. apply map_positions_seq_batch_entry.
    + apply map_positions_batch_entry.
    + apply map_entries_batch_entry.
    + apply map_entries_batch_entry.
    + intros b k x y x' Hxy Hx. injection Hx as <-. exists y. auto.
    + intros b k x y x' Hxy. destruct x, y; try contradiction; discriminate.
Qed.

Lemma is_transformer_layer_batchwise (a : Args) (m : Module) :
  is_transformer_layer a m -> batchwise m.
Proof.
  intros (_ & _ & n1 & q & k & v & o & n2 & w1 & act & w2 & Hact & ->).
  destruct act; try discriminate Hact; cbn; tauto.
Qed.

(** The position rows, of batch size one, are added to each entry. *)
Lemma add_positions_batch_entry (b k : nat) (x y : Value) (p : Tensor)
  (l d : nat) (row : list (list scalar)) (z : Value) :
  k < b ->
  shape p = (1, l, d) -> data p = [row] ->
  batch_entry b k x y ->
  value_add x (Hidden p) = Ok z ->
  exists z', value_add y (Hidden p) = Ok z' /\ batch_entry b k z z'.
Proof.
  intros Hk Hp Hdp Hxy.
  destruct x as [| | s], y as [| | u]; try contradiction; try discriminate.
  destruct Hxy as (l1 & d1 & r1 & Hs & Ht & Hn & Hd).
  cbn [value_add]. unfold tensor_add.
  rewrite Hs, Ht, Hp, broadcast_dim_1_r, broadcast_dim_same. cbn [bind].
  destruct (broadcast_dim l1 l) as [nl |]; [| discriminate].
  destruct (broadcast_dim d1 d) as [nd |]; [| discriminate].
  cbn [bind]. intros Hz. injection Hz as <-.
  eexists. split; [reflexivity |].
  exists nl, nd, (bzip (bzip s_add d1 d) l1 l r1 row). cbn [shape data].
  repeat split.
  - rewrite Hdp. destruct (Nat.eq_dec b 1) as [-> | Hb1].
    + rewrite bzip_same. apply nth_error_zip_with; [exact Hn |].
      destruct k; [reflexivity | lia].
    + rewrite bzip_broadcast_r by exact Hb1.
      now apply (map_nth_error (fun x => bzip (bzip s_add d1 d) l1 l x row)).
  - now rewrite Hd, Hdp, bzip_same.
Qed.

(** X8: the entries of a batch do not influence one another.  When the
    encoder accepts a batch of texts, it accepts each text of the batch
    on its own as well, and the embeddings it returns for the text alone
    are the entry of the batch result at the text's place. *)
Theorem batch_entries_are_independent (a : Args) (theta : Params) (encoder : Module)
  (texts : list string) (k : nat) (s : string) (t : Tensor) :
  CLIPTextEncoder a theta = Ok encoder ->
  nth_error texts k = Some s ->
  forward encoder (Text texts) = Ok (Hidden t) ->
  exists entry,
    nth_error (data t) k = Some entry /\
    forward encoder (Text [s])
    = Ok (Hidden {| shape := (1, snd (fst (shape t)), snd (shape t));
                    data := [entry] |}).
Proof.
  intros H Hk.
  apply CLIPTextEncoder_structure in H as (layers & final_p & -> & _ & Hform).
  cbn [forward chain_with tokenizer_forward bind sum_with sum_rest length map].
  set (n := sequence_length (tokenizer_of a)).
  assert (Htok : batch_entry (length texts) k
                   (Tokens {| ishape := (length texts, n);
                              idata := map (encode (tokenizer_of a)) texts |})
                   (Tokens {| ishape := (1, n);
                              idata := [encode (tokenizer_of a) s] |})).
  { exists n, (encode (tokenizer_of a) s). cbn [ishape idata].
    repeat split. now apply map_nth_error. }
  assert (Hlt : k < length texts) by (apply nth_error_Some; congruence).
  unfold TokenEncoder. cbn [forward].
  destruct (embedding_forward _ _ _ (Tokens {| ishape := (length texts, n) |}))
    as [e1 |] eqn:E1; [| discriminate].
  destruct (embedding_batch_entry _ _ _ _ _ _ _ e1 Htok E1) as (e1' & E1' & He1).
  rewrite E1'. cbn [bind].
  rewrite !(positional_encoder_forward (max_sequence_length a) (embedding_dim a)
              (sub (sub theta 2) 1) _ n) by reflexivity.
  cbn [bind].
  match goal with
  | |- context [value_add e1 (Hidden ?p)] =>
      destruct (value_add e1 (Hidden p)) as [e2 |] eqn:E2; [| discriminate];
      destruct (add_positions_batch_entry (length texts) k e1 e1' p _ _ _ e2
                  Hlt eq_refl eq_refl He1 E2) as (e2' & E2' & He2)
  end.
  rewrite E2'. cbn [bind].
  intros Hrun.
  assert (Hstack : keeps_batch_entries
                     (chain_with forward
                        (layers ++ [LayerNorm (embedding_dim a) (layer_norm_eps a)
                                      final_p]))).
  { apply chain_with_batch_entry, Forall_app. split.
    - eapply Forall_impl; [| exact Hform].
      intros m Hm. apply forward_batch_entry.
      now apply (is_transformer_layer_batchwise a).
    - constructor; [| constructor]. now apply forward_batch_entry. }
  destruct (Hstack _ k e2 e2' (Hidden t) He2 Hrun) as (out & Eout & Hout).
  destruct out as [| | t']; try contradiction.
  destruct Hout as (l & d & entry & Hs & Hs' & Hn & Hd).
  exists entry. split; [exact Hn |].
  rewrite Eout, Hs. cbn [fst snd].
  destruct t' as [sh dat]. cbn in Hs', Hd. now subst.
Qed.

(** ** Counting the activations *)

Lemma walk_children_app {A : Type} (p : A -> bool) (descend : A -> list Path)
  (i : nat) (l1 l2 : list A) :
  walk_children p descend i (l1 ++ l2)
  = walk_children p descend i l1 ++ walk_children p descend (i + length l1) l2.
Proof.
  revert i; induction l1 as [| c l1 IH]; intros i; cbn [walk_children app length].
  - now rewrite Nat.add_0_r.
  - rewrite IH, <- app_assoc. do 2 f_equal. f_equal. lia.
Qed.

Lemma length_walk_children_uniform (p : Module -> bool) (i m : nat) (ms : list Module) :
  Forall (fun c => p c = false /\ length (walk p c) = m) ms ->
  length (walk_children p (walk p) i ms) = m * length ms.
Proof.
  intros H; revert i; induction H as [| c ms (Hp & Hw) _ IH]; intros i;
    cbn [walk_children].
  - cbn. lia.
  - rewrite Hp, length_app, length_map, IH. cbn [length].
    unfold Path in *. lia.
Qed.

(** Only the layers of an encoder can hold modules that a predicate on
    activations selects. *)
Lemma length_walk_encoder (p : Module -> bool) (tk : CLIPTokenizer)
  (vocabulary max embedding : nat) (theta1 theta2 : Params) (eps : Q)
  (final_p : NormParams) (layers : list Module) (m : nat) :
  (forall c, is_activation c = false -> p c = false) ->
  Forall (fun c => p c = false /\ length (walk p c) = m) layers ->
  length (walk p (Chain (Tokenizer tk
                         :: Converter true false
                         :: Sum [ TokenEncoder vocabulary embedding theta1;
                                  PositionalEncoder max embedding theta2 ]
                         :: layers ++ [ LayerNorm embedding eps final_p ])))
  = m * length layers.
Proof.
  intros Hp Hlayers. unfold TokenEncoder, PositionalEncoder.
  cbn [walk walk_children].
  rewrite walk_children_app. cbn [walk_children walk].
  repeat match goal with
         | |- context [p ?c] => rewrite (Hp c eq_refl)
         end.
  cbn [map app]. rewrite app_nil_r.
  apply (length_walk_children_uniform p 3 m layers Hlayers).
Qed.

(** X9: a constructed encoder holds exactly one activation per layer and
    none elsewhere: [num_layers] exact GeLUs and no approximate one
    when [use_quick_gelu] is off, [num_layers] approximate GeLUs and no
    exact one when it is on. *)
Theorem one_activation_per_layer (a : Args) (theta : Params) (encoder : Module) :
  CLIPTextEncoder a theta = Ok encoder ->
  length (walk is_GeLU encoder) = (if use_quick_gelu a then 0 else num_layers a) /\
  length (walk is_ApproximateGeLU encoder)
  = (if use_quick_gelu a then num_layers a else 0).
Proof.
  intros H. apply CLIPTextEncoder_inv in H as (layers & Hl & ->).
  pose proof (transformer_layers_form a theta layers Hl) as Hform.
  apply transformer_layers_are_layers in Hl as (Hlen & _).
  assert (HG : forall c, is_activation c = false -> is_GeLU c = false)
    by (intros c; destruct c; reflexivity || discriminate).
  assert (HA : forall c, is_activation c = false -> is_ApproximateGeLU c = false)
    by (intros c; destruct c; reflexivity || discriminate).
  assert (Hcount : forall p ls m,
             (forall c, is_activation c = false -> p c = false) ->
             Forall (fun c => p c = false /\ length (walk p c) = m) ls ->
             length (walk p (Chain (Tokenizer (tokenizer_of a)
                                    :: Converter true false
                                    :: Sum [ Embedding (vocabulary_size a) (embedding_dim a)
                                               (sub (sub theta 2) 0 []);
                                             Chain [ Lambda (get_position_ids
                                                               (max_sequence_length a));
                                                     Embedding (max_sequence_length a)
                                                       (embedding_dim a)
                                                       (sub (sub theta 2) 1 [1]) ] ]
                                    :: ls
                                    ++ [ LayerNorm (embedding_dim a) (layer_norm_eps a)
                                           (norm_params (sub theta (3 + num_layers a))) ])))
             = m * length ls).
  { intros p ls m Hp Hls.
    exact (length_walk_encoder p (tokenizer_of a) (vocabulary_size a)
             (max_sequence_length a) (embedding_dim a) (sub (sub theta 2) 0)
             (sub (sub theta 2) 1) (layer_norm_eps a)
             (norm_params (sub theta (3 + num_layers a))) ls m Hp Hls). }
  destruct (use_quick_gelu a).
  - rewrite quick_gelu_pass_swaps by reflexivity.
    unfold encoder_body, TokenEncoder, PositionalEncoder.
    cbn [swap_activations map app].
    rewrite map_app. cbn [map swap_activations].
    rewrite (Hcount is_GeLU (map swap_activations layers) 0 HG),
            (Hcount is_ApproximateGeLU (map swap_activations layers) 1 HA).
    + rewrite length_map. lia.
    + apply Forall_map. eapply Forall_impl; [| exact Hform].
      intros c (n1 & q & k & v & o & n2 & w1 & w2 & ->). split; reflexivity.
    + apply Forall_map. eapply Forall_impl; [| exact Hform].
      intros c (n1 & q & k & v & o & n2 & w1 & w2 & ->). split; reflexivity.
  - unfold encoder_body, TokenEncoder, PositionalEncoder. cbn [app].
    rewrite (Hcount is_GeLU layers 1 HG), (Hcount is_ApproximateGeLU layers 0 HA).
    + lia.
    + eapply Forall_impl; [| exact Hform].
      intros c (n1 & q & k & v & o & n2 & w1 & w2 & ->). split; reflexivity.
    + eapply Forall_impl; [| exact Hform].
      intros c (n1 & q & k & v & o & n2 & w1 & w2 & ->). split; reflexivity.
Qed.

(** ** The pad token *)

Lemma firstn_encode_text (t : CLIPTokenizer) (s : string) (k : nat) :
  k <= length (bpe s) ->
  firstn k (encode t s) = firstn (Nat.min k (sequence_length t)) (bpe s).
Proof.
  intros Hk. unfold encode.
  rewrite firstn_firstn, firstn_app.
  replace (Nat.min k (sequence_length t) - length (bpe s)) with 0 by lia.
  now rewrite firstn_O, app_nil_r.
Qed.

Lemma Forall2_same_on {A : Type} (R : A -> A -> Prop) (l : list A) :
  Forall (fun a => R a a) l -> Forall2 R l l.
Proof. induction 1; constructor; auto. Qed.

(** X10: the pad token of the tokenizer handed to the constructor only
    matters from the first pad on.  Two encoders built from the same
    arguments and parameters, with tokenizers of the same sequence length
    that may pad differently, return the same embeddings at every
    position that holds a token of the text itself. *)
Theorem pad_token_only_affects_padding (a : Args) (tk tk' : CLIPTokenizer)
  (theta : Params) (encoder encoder' : Module) (texts : list string) (k : nat)
  (t t' : Tensor) :
  sequence_length tk = sequence_length tk' ->
  CLIPTextEncoder (with_tokenizer a (Some tk)) theta = Ok encoder ->
  CLIPTextEncoder (with_tokenizer a (Some tk')) theta = Ok encoder' ->
  Forall (fun s => k <= length (bpe s)) texts ->
  forward encoder (Text texts) = Ok (Hidden t) ->
  forward encoder' (Text texts) = Ok (Hidden t') ->
  shape t = shape t' /\
  Forall2 (fun row row' => forall j, j < k -> nth_error row j = nth_error row' j)
          (data t) (data t').
Proof.
  intros Hn H H' Hk.
  destruct (CLIPTextEncoder_structure _ _ _ H) as (ls & fp & E & _ & Hform).
  apply CLIPTextEncoder_inv in H as (layers & Hl & E1).
  apply CLIPTextEncoder_inv in H' as (layers' & Hl' & E1').
  change (transformer_layers (with_tokenizer a (Some tk')) theta)
    with (transformer_layers (with_tokenizer a (Some tk)) theta) in Hl'.
  rewrite Hl in Hl'. injection Hl' as <-.
  cbn [use_quick_gelu with_tokenizer tokenizer_of tokenizer] in E1, E1'.
  assert (Hbody : exists body,
             encoder = Chain (Tokenizer tk :: body) /\
             encoder' = Chain (Tokenizer tk' :: body)).
  { destruct (use_quick_gelu a).
    - rewrite quick_gelu_pass_swaps in E1, E1' by reflexivity.
      cbn [swap_activations map] in E1, E1'.
      eexists. split; [exact E1 | exact E1'].
    - eexists. split; [exact E1 | exact E1']. }
  destruct Hbody as (body & -> & ->). clear E1 E1'.
  assert (Ebody : body =
            Converter true false
            :: Sum [ TokenEncoder (vocabulary_size (with_tokenizer a (Some tk)))
                       (embedding_dim (with_tokenizer a (Some tk)))
                       (sub (sub theta 2) 0);
                     PositionalEncoder
                       (max_sequence_length (with_tokenizer a (Some tk)))
                       (embedding_dim (with_tokenizer a (Some tk)))
                       (sub (sub theta 2) 1) ]
            :: ls
            ++ [ LayerNorm (embedding_dim (with_tokenizer a (Some tk)))
                   (layer_norm_eps (with_tokenizer a (Some tk))) fp ])
    by now injection E.
  pose proof (encoder_body_causal (with_tokenizer a (Some tk))
                (sub (sub theta 2) 0) (sub (sub theta 2) 1) ls fp Hform) as Hc.
  rewrite <- Ebody in Hc. apply forward_agree in Hc.
  cbn [forward chain_with tokenizer_forward bind]. intros Ht Ht'.
  assert (Hin : agree_upto k
                  (Tokens {| ishape := (length texts, sequence_length tk);
                             idata := map (encode tk) texts |})
                  (Tokens {| ishape := (length texts, sequence_length tk');
                             idata := map (encode tk') texts |})).
  { split; cbn [ishape idata]; [now rewrite Hn |].
    apply Forall2_map_both. apply Forall2_same_on.
    eapply Forall_impl; [| exact Hk].
    intros s Hs. cbn beta. now rewrite !firstn_encode_text, Hn by exact Hs. }
  destruct (Hc k _ _ _ _ Hin Ht Ht') as (Hs & Hd).
  split; [exact Hs |].
  eapply Forall2_impl; [| exact Hd].
  intros row row' Hrow j Hj. now apply (firstn_eq_nth_error k).
Qed.

End Properties.

(** * The statements on the small configuration *)

#[local] Existing Instance ZRuntime.
#[local] Existing Instance ToyBackend.

Lemma transformer_layer_pre_norm_witness :
  TransformerLayer 4 3 2 (1 # 100000)%Q (sub small_theta 3) = Ok small_layer /\
  exists n1 q k v o n2,
    let norm1 := LayerNorm 4 (1 # 100000)%Q n1 in
    let attention := SelfAttention 4 2 true q k v o in
    let norm2 := LayerNorm 4 (1 # 100000)%Q n2 in
    let feed_forward := FeedForward 4 3 (sub (sub (sub small_theta 3) 1) 1) in
    small_layer = Chain [Residual [norm1; attention]; Residual [norm2; feed_forward]] /\
    forall x,
      forward small_layer x
      = (a <- forward norm1 x ;; b <- forward attention a ;; y <- value_add x b ;;
         c <- forward norm2 y ;; e <- forward feed_forward c ;; value_add y e).
Proof.
  split; [reflexivity |].
  apply (transformer_layer_pre_norm 4 3 2 (1 # 100000)%Q (sub small_theta 3) small_layer).
  reflexivity.
Defined.

Lemma no_future_leakage_witness :
  CLIPTextEncoder small_args small_theta = Ok small_encoder /\
  Forall2 (fun s s' => firstn 2 (encode (tokenizer_of small_args) s)
                       = firstn 2 (encode (tokenizer_of small_args) s'))
          ["ab"%string] ["ac"%string] /\
  forward small_encoder (Text ["ab"%string]) = Ok (Hidden output_ab) /\
  forward small_encoder (Text ["ac"%string]) = Ok (Hidden output_ac) /\
  shape output_ab = shape output_ac /\
  Forall2 (fun row row' => forall j, j <= 1 -> nth_error row j = nth_error row' j)
          (data output_ab) (data output_ac).
Proof.
  assert (H1 : CLIPTextEncoder small_args small_theta = Ok small_encoder)
    by reflexivity.
  assert (H2 : Forall2 (fun s s' => firstn 2 (encode (tokenizer_of small_args) s)
                                    = firstn 2 (encode (tokenizer_of small_args) s'))
                 ["ab"%string] ["ac"%string])
    by (constructor; [reflexivity | constructor]).
  assert (H3 : forward small_encoder (Text ["ab"%string]) = Ok (Hidden output_ab))
    by reflexivity.
  assert (H4 : forward small_encoder (Text ["ac"%string]) = Ok (Hidden output_ac))
    by reflexivity.
  split; [exact H1 |]. split; [exact H2 |]. split; [exact H3 |]. split; [exact H4 |].
  exact (no_future_leakage small_args small_theta small_encoder
           ["ab"%string] ["ac"%string] 1 output_ab output_ac H1 H2 H3 H4).
Defined.

Lemma quick_gelu_changes_only_activations_witness :
  CLIPTextEncoder (with_use_quick_gelu small_args false) small_theta = Ok small_encoder /\
  exists quick,
    CLIPTextEncoder (with_use_quick_gelu small_args true) small_theta = Ok quick /\
    quick = swap_activations small_encoder /\
    walk is_GeLU quick = [] /\
    (forall p, lookup p quick = option_map swap_activations (lookup p small_encoder)) /\
    (forall p m, lookup p small_encoder = Some m -> is_GeLU m = true ->
                 lookup p quick = Some ApproximateGeLU) /\
    (forall p m, lookup p small_encoder = Some m -> children m = None ->
                 is_GeLU m = false ->
                 exists m', lookup p quick = Some m' /\ m' = m /\
                            forall x, forward m' x = forward m x).
Proof.
  split; [reflexivity |].
  apply (quick_gelu_changes_only_activations small_args small_theta small_encoder).
  reflexivity.
Defined.

(** C4, as the specification states it, fails for every tokenizer: L
    passes no tokenizer and so pads with the default id. *)
Lemma presets_as_specified_fails :
  ~ (exists TB : TokenizerBackend, @presets_as_specified TB).
Proof.
  intros (TB & (_ & _ & _ & _ & HL) & _).
  unfold non_default_pad_token in HL. cbn in HL.
  rewrite Nat.eqb_refl in HL. discriminate HL.
Qed.

Lemma positional_encoder_prefix_witness :
  shape_1 three_tokens = Ok 3 /\
  shape_1 three_other_tokens = Ok 3 /\
  3 <= 4 /\
  forward (PositionalEncoder 4 2 small_theta) three_tokens
  = Ok (Hidden {| shape := (1, 3, 2);
                  data := [firstn 3 (embedding_table 4 2 (small_theta [1]))] |}) /\
  firstn 3 (embedding_table 4 2 (small_theta [1]))
  = map (embedding_row 2 (small_theta [1])) (seq 0 3) /\
  forward (PositionalEncoder 4 2 small_theta) three_other_tokens
  = forward (PositionalEncoder 4 2 small_theta) three_tokens.
Proof.
  assert (H1 : shape_1 three_tokens = Ok 3) by reflexivity.
  assert (H2 : shape_1 three_other_tokens = Ok 3) by reflexivity.
  assert (H3 : 3 <= 4) by lia.
  split; [exact H1 |]. split; [exact H2 |]. split; [exact H3 |].
  exact (positional_encoder_prefix 4 2 small_theta three_tokens three_other_tokens 3
           H1 H2 H3).
Defined.

Lemma construction_rejects_uneven_heads_witness :
  1 <= num_layers uneven_args /\
  embedding_dim uneven_args mod num_attention_heads uneven_args <> 0 /\
  CLIPTextEncoder uneven_args small_theta = Err AssertionError.
Proof.
  assert (H1 : 1 <= num_layers uneven_args) by (cbn; lia).
  assert (H2 : embedding_dim uneven_args mod num_attention_heads uneven_args <> 0)
    by (cbn; lia).
  split; [exact H1 |]. split; [exact H2 |].
  exact (construction_rejects_uneven_heads uneven_args small_theta H1 H2).
Defined.

(** C6, as the specification states it, fails: with no layer no attention
    is built, nothing checks the head count, and the encoder is
    constructed and runs. *)
Lemma uneven_heads_accepted_without_layers :
  ~ rejects_every_uneven_configuration.
Proof.
  intros H.
  specialize (H uneven_args_without_layers small_theta).
  assert (Hd : embedding_dim uneven_args_without_layers
               mod num_attention_heads uneven_args_without_layers <> 0)
    by (cbn; lia).
  specialize (H Hd). vm_compute in H. discriminate H.
Qed.

Lemma empty_prompt_embedding_witness :
  CLIPTextEncoder small_args small_theta = Ok small_encoder /\
  sequence_length (tokenizer_of small_args) = max_sequence_length small_args /\
  Forall (fun id => id < vocabulary_size small_args)
         (encode (tokenizer_of small_args) EmptyString) /\
  exists t,
    forward small_encoder (Text [EmptyString]) = Ok (Hidden t) /\
    has_shape t (1, max_sequence_length small_args, embedding_dim small_args) /\
    unconditional_text_embedding small_encoder = Ok (Hidden t).
Proof.
  assert (H1 : CLIPTextEncoder small_args small_theta = Ok small_encoder)
    by reflexivity.
  assert (H2 : sequence_length (tokenizer_of small_args)
               = max_sequence_length small_args) by reflexivity.
  assert (H3 : Forall (fun id => id < vocabulary_size small_args)
                 (encode (tokenizer_of small_args) EmptyString))
    by (cbn; repeat constructor).
  split; [exact H1 |]. split; [exact H2 |]. split; [exact H3 |].
  exact (empty_prompt_embedding small_args small_theta small_encoder H1 H2 H3).
Defined.

Lemma encoder_stack_preserves_shape_witness :
  CLIPTextEncoder small_args small_theta = Ok small_encoder /\
  exists front layers final_p,
    let final_norm :=
      LayerNorm (embedding_dim small_args) (layer_norm_eps small_args) final_p in
    small_encoder = Chain (front ++ layers ++ [final_norm]) /\
    length front = 3 /\
    length layers = num_layers small_args /\
    Forall (is_transformer_layer small_args) layers /\
    forall b l,
      let s := (b, l, embedding_dim small_args) in
      Forall (fun m => maps_shape m s s) (layers ++ [final_norm]) /\
      maps_shape (Chain (layers ++ [final_norm])) s s.
Proof.
  assert (H1 : CLIPTextEncoder small_args small_theta = Ok small_encoder)
    by reflexivity.
  split; [exact H1 |].
  exact (encoder_stack_preserves_shape small_args small_theta small_encoder H1).
Defined.

Lemma positional_encoder_overlong_witness :
  shape_1 three_tokens = Ok 3 /\
  2 < 3 /\
  get_position_ids 2 three_tokens = Ok (Tokens (position_ids 2)) /\
  snd (ishape (position_ids 2)) <> 3 /\
  forward (PositionalEncoder 2 4 small_theta) three_tokens
  = Ok (Hidden {| shape := (1, 2, 4);
                  data := [embedding_table 2 4 (small_theta [1])] |}) /\
  (2 <= 2 ->
   is_ok (forward (Sum [TokenEncoder 258 4 small_theta; PositionalEncoder 2 4 small_theta])
            three_tokens)
   = false).
Proof.
  assert (H1 : shape_1 three_tokens = Ok 3) by reflexivity.
  assert (H2 : 2 < 3) by lia.
  split; [exact H1 |]. split; [exact H2 |].
  exact (positional_encoder_overlong 258 2 4 small_theta small_theta three_tokens 3
           H1 H2).
Defined.

(** ** The further properties on the small configuration *)

Lemma encoder_accepts_every_batch_witness :
  CLIPTextEncoder small_args small_theta = Ok small_encoder /\
  sequence_length (tokenizer_of small_args) <= max_sequence_length small_args /\
  Forall (fun s => Forall (fun id => id < vocabulary_size small_args)
                          (encode (tokenizer_of small_args) s))
         ["ab"%string; "ac"%string] /\
  exists t,
    forward small_encoder (Text ["ab"%string; "ac"%string]) = Ok (Hidden t) /\
    shape t = (2, sequence_length (tokenizer_of small_args), embedding_dim small_args) /\
    length (data t) = 2 /\
    Forall (fun entry =>
              length entry = sequence_length (tokenizer_of small_args) /\
              Forall (fun v => length v = embedding_dim small_args) entry) (data t).
Proof.
  assert (H1 : CLIPTextEncoder small_args small_theta = Ok small_encoder)
    by reflexivity.
  assert (H2 : sequence_length (tokenizer_of small_args)
               <= max_sequence_length small_args) by (cbn; lia).
  assert (H3 : Forall (fun s => Forall (fun id => id < vocabulary_size small_args)
                                       (encode (tokenizer_of small_args) s))
                 ["ab"%string; "ac"%string])
    by (cbn; repeat constructor).
  split; [exact H1 |]. split; [exact H2 |]. split; [exact H3 |].
  exact (encoder_accepts_every_batch small_args small_theta small_encoder
           ["ab"%string; "ac"%string] H1 H2 H3).
Defined.

Lemma out_of_vocabulary_token_fails_witness :
  CLIPTextEncoder small_vocabulary_args small_theta = Ok small_vocabulary_encoder /\
  Exists (fun s => Exists (fun id => vocabulary_size small_vocabulary_args <= id)
                          (encode (tokenizer_of small_vocabulary_args) s))
         ["ab"%string] /\
  forward small_vocabulary_encoder (Text ["ab"%string]) = Err IndexError.
Proof.
  assert (H1 : CLIPTextEncoder small_vocabulary_args small_theta
               = Ok small_vocabulary_encoder) by reflexivity.
  assert (H2 : Exists (fun s => Exists (fun id => vocabulary_size small_vocabulary_args
                                                  <= id)
                                       (encode (tokenizer_of small_vocabulary_args) s))
                 ["ab"%string])
    by (apply Exists_cons_hd; cbn; apply Exists_cons_hd; lia).
  split; [exact H1 |]. split; [exact H2 |].
  exact (out_of_vocabulary_token_fails small_vocabulary_args small_theta
           small_vocabulary_encoder ["ab"%string] H1 H2).
Defined.

Lemma longer_tokenizer_never_runs_witness :
  CLIPTextEncoder long_tokenizer_args small_theta = Ok long_tokenizer_encoder /\
  2 <= max_sequence_length long_tokenizer_args /\
  max_sequence_length long_tokenizer_args
  < sequence_length (tokenizer_of long_tokenizer_args) /\
  (forward long_tokenizer_encoder (Text ["ab"%string]) = Err IndexError \/
   forward long_tokenizer_encoder (Text ["ab"%string]) = Err ShapeError).
Proof.
  assert (H1 : CLIPTextEncoder long_tokenizer_args small_theta
               = Ok long_tokenizer_encoder) by reflexivity.
  assert (H2 : 2 <= max_sequence_length long_tokenizer_args) by (cbn; lia).
  assert (H3 : max_sequence_length long_tokenizer_args
               < sequence_length (tokenizer_of long_tokenizer_args)) by (cbn; lia).
  split; [exact H1 |]. split; [exact H2 |]. split; [exact H3 |].
  exact (longer_tokenizer_never_runs long_tokenizer_args small_theta
           long_tokenizer_encoder ["ab"%string] H1 H2 H3).
Defined.


Lemma embedding_fusion_witness :
  ishape three_token_ids = (2, 3) /\
  length (idata three_token_ids) = 2 /\
  Forall (Forall (fun id => id < 258)) (idata three_token_ids) /\
  3 <= 4 /\
  forward (Sum [ TokenEncoder 258 4 small_theta;
                 PositionalEncoder 4 4 small_theta ]) (Tokens three_token_ids)
  = Ok (Hidden
          {| shape := (2, 3, 4);
             data := map (fun ids =>
                            zip_with vadd
                              (map (embedding_row 4 (small_theta [])) ids)
                              (map (embedding_row 4 (small_theta [1])) (seq 0 3)))
                         (idata three_token_ids) |}).
Proof.
  assert (H1 : ishape three_token_ids = (2, 3)) by reflexivity.
  assert (H2 : length (idata three_token_ids) = 2) by reflexivity.
  assert (H3 : Forall (Forall (fun id => id < 258)) (idata three_token_ids))
    by (cbn; repeat constructor).
  assert (H4 : 3 <= 4) by lia.
  split; [exact H1 |]. split; [exact H2 |]. split; [exact H3 |]. split; [exact H4 |].
  exact (embedding_fusion 258 4 4 small_theta small_theta three_token_ids 2 3
           H1 H2 H3 H4).
Defined.

Lemma batch_entries_are_independent_witness :
  CLIPTextEncoder small_args small_theta = Ok small_encoder /\
  nth_error ["ab"%string; "ac"%string] 1 = Some "ac"%string /\
  forward small_encoder (Text ["ab"%string; "ac"%string]) = Ok (Hidden output_ab_ac) /\
  exists entry,
    nth_error (data output_ab_ac) 1 = Some entry /\
    forward small_encoder (Text ["ac"%string])
    = Ok (Hidden {| shape := (1, snd (fst (shape output_ab_ac)),
                             snd (shape output_ab_ac));
                    data := [entry] |}).
Proof.
  assert (H1 : CLIPTextEncoder small_args small_theta = Ok small_encoder)
    by reflexivity.
  assert (H2 : nth_error ["ab"%string; "ac"%string] 1 = Some "ac"%string)
    by reflexivity.
  assert (H3 : forward small_encoder (Text ["ab"%string; "ac"%string])
               = Ok (Hidden output_ab_ac)) by reflexivity.
  split; [exact H1 |]. split; [exact H2 |]. split; [exact H3 |].
  exact (batch_entries_are_independent small_args small_theta small_encoder
           ["ab"%string; "ac"%string] 1 "ac"%string output_ab_ac H1 H2 H3).
Defined.

Lemma one_activation_per_layer_witness :
  CLIPTextEncoder small_args small_theta = Ok small_encoder /\
  length (walk is_GeLU small_encoder)
  = (if use_quick_gelu small_args then 0 else num_layers small_args) /\
  length (walk is_ApproximateGeLU small_encoder)
  = (if use_quick_gelu small_args then num_layers small_args else 0).
Proof.
  assert (H1 : CLIPTextEncoder small_args small_theta = Ok small_encoder)
    by reflexivity.
  split; [exact H1 |].
  exact (one_activation_per_layer small_args small_theta small_encoder H1).
Defined.

Lemma pad_token_only_affects_padding_witness :
  sequence_length padding_257 = sequence_length padding_0 /\
  CLIPTextEncoder (with_tokenizer small_args (Some padding_257)) small_theta
  = Ok padding_257_encoder /\
  CLIPTextEncoder (with_tokenizer small_args (Some padding_0)) small_theta
  = Ok padding_0_encoder /\
  Forall (fun s => 3 <= length (bpe s)) ["a"%string] /\
  forward padding_257_encoder (Text ["a"%string]) = Ok (Hidden output_a_padding_257) /\
  forward padding_0_encoder (Text ["a"%string]) = Ok (Hidden output_a_padding_0) /\
  shape output_a_padding_257 = shape output_a_padding_0 /\
  Forall2 (fun row row' => forall j, j < 3 -> nth_error row j = nth_error row' j)
          (data output_a_padding_257) (data output_a_padding_0).
Proof.
  assert (H1 : sequence_length padding_257 = sequence_length padding_0)
    by reflexivity.
  assert (H2 : CLIPTextEncoder (with_tokenizer small_args (Some padding_257)) small_theta
               = Ok padding_257_encoder) by reflexivity.
  assert (H3 : CLIPTextEncoder (with_tokenizer small_args (Some padding_0)) small_theta
               = Ok padding_0_encoder) by reflexivity.
  assert (H4 : Forall (fun s => 3 <= length (bpe s)) ["a"%string])
    by (constructor; [cbn; lia | constructor]).
  assert (H5 : forward padding_257_encoder (Text ["a"%string])
               = Ok (Hidden output_a_padding_257)) by reflexivity.
  assert (H6 : forward padding_0_encoder (Text ["a"%string])
               = Ok (Hidden output_a_padding_0)) by reflexivity.
  split; [exact H1 |]. split; [exact H2 |]. split; [exact H3 |]. split; [exact H4 |].
  split; [exact H5 |]. split; [exact H6 |].
  exact (pad_token_only_affects_padding small_args padding_257 padding_0 small_theta
           padding_257_encoder padding_0_encoder ["a"%string] 3
           output_a_padding_257 output_a_padding_0 H1 H2 H3 H4 H5 H6).
Defined.
